(** * gqlerr: structured errors for a gqlgen GraphQL server

    A shallow embedding of package [gqlerr] (gqlerr.go, the revision with
    [panicLevel] and [RecoverFunc]) and of package [codes], with the parts
    of the libraries they call ([errors], [zap], [ast], [graphql], [fmt])
    modelled as far as the package uses them.

    - [*Error] is a pointer: Error values live in a heap and the decoration
      methods and [logError] write through the pointer.
    - The [*zap.Logger] is the recording sink of the tests (the observer
      core): every method call appends one entry.
    - A nil-pointer dereference is the outcome [Panic]. *)

From Stdlib Require Import ZArith Ascii DecimalString.
From stdpp Require Import base option list strings gmap fin_maps.

Local Open Scope string_scope.
Local Open Scope list_scope.
Local Open Scope Z_scope.

(** ** Package codes *)

Module codes.

(** [type Code string] *)
Definition Code := string.

Definition InvalidArgument : Code := "invalid_argument".
Definition NotFound : Code := "not_found".
Definition AlreadyExists : Code := "already_exists".
Definition PermissionDenied : Code := "permission_denied".
Definition ResourceExhausted : Code := "resource_exhausted".
Definition FailedPrecondition : Code := "failed_precondition".
Definition Unimplemented : Code := "unimplemented".
Definition Internal : Code := "internal".
Definition Unauthenticated : Code := "unauthenticated".

(** The nine codes, in the order of the const block. *)
Definition all : list Code :=
  [InvalidArgument; NotFound; AlreadyExists; PermissionDenied;
   ResourceExhausted; FailedPrecondition; Unimplemented; Internal;
   Unauthenticated].

End codes.

(** ** Go error values *)

(** Addresses of allocated [Error] structs; a [*Error] is [None] when nil. *)
Definition loc := positive.
Definition ptr := option loc.

(** What an error of a type other than [*Error] shows to this package:
    its dynamic type as [%T] prints it, its identity under [==] (the address
    for a pointer type, the contents for a value type), the text its
    [Error()] method returns, and whether its dynamic type is comparable.
    Such types are taken without [Is] and [As] methods of their own, as
    [errors.New], [fmt.Errorf] and the tests' [randomError] are. *)
Record dyn := mkDyn {
  dyn_type : string;
  dyn_id : N;
  dyn_text : string;
  dyn_comparable : bool
}.

(** A non-nil value of interface type [error]. A nil interface is [None] of
    [option error]. [ErrorPtr None] is a nil pointer of type [*Error]
    stored in an interface, which is not a nil interface. *)
Inductive error : Type :=
  | Opaque (d : dyn)                  (* no Unwrap method, or it returns nil *)
  | Wrapped (d : dyn) (inner : error) (* Unwrap() returns inner *)
  | ErrorPtr (p : ptr).               (* dynamic type *gqlerr.Error *)

#[global] Instance dyn_eq_dec : EqDecision dyn.
Proof. solve_decision. Defined.

#[global] Instance error_eq_dec : EqDecision error.
Proof. solve_decision. Defined.

Module errors.

(** [reflectlite.TypeOf(target).Comparable()] *)
Definition Comparable (e : error) : bool :=
  match e with
  | Opaque d | Wrapped d _ => dyn_comparable d
  | ErrorPtr _ => true
  end.

(** [errors.Is] for a non-nil target: [err == target] when the target is
    comparable, else the next error of the Unwrap chain. [*Error] has
    neither an [Is] nor an [Unwrap] method. *)
Fixpoint Is (err target : error) : bool :=
  (Comparable target && bool_decide (err = target))
  || match err with
     | Wrapped _ inner => Is inner target
     | Opaque _ | ErrorPtr _ => false
     end.

(** [errors.As(err, &e)] with [e] of type [*Error]: the first error of the
    Unwrap chain whose dynamic type is [*Error] is stored in [e]. *)
Fixpoint As (err : error) : option ptr :=
  match err with
  | ErrorPtr p => Some p
  | Wrapped _ inner => As inner
  | Opaque _ => None
  end.

End errors.

(** [fmt.Sprintf("%T", err)] *)
Definition Sprintf_T (err : error) : string :=
  match err with
  | Opaque d | Wrapped d _ => dyn_type d
  | ErrorPtr _ => "*gqlerr.Error"
  end.

(** A value of interface type [interface{}], as far as [zap.Any] and the
    type assertion in [err] tell values apart. *)
Inductive any : Type :=
  | anyNil
  | anyString (s : string)
  | anyInt (n : Z)
  | anyError (e : error)
  | anyOther (tyname : string) (id : N). (* a type zap.Any has no case for *)

#[global] Instance any_eq_dec : EqDecision any.
Proof. solve_decision. Defined.

(** ** The parts of zap, gqlparser and gqlgen the package calls *)

Module zapcore.

(** The field type tags this package and its tests meet. *)
Inductive FieldType : Type :=
  | UnknownType | Int64Type | StringType | ReflectType | ErrorType | SkipType.

Inductive Level : Type :=
  | DebugLevel | InfoLevel | WarnLevel | ErrorLevel | DPanicLevel.

(** [zapcore.Field]; [FType] and [Str] are the struct's [Type] and
    [String]. *)
Record Field := mkField {
  Key : string;
  FType : FieldType;
  Integer : Z;
  Str : string;
  Interface : any
}.

#[global] Instance FieldType_eq_dec : EqDecision FieldType.
Proof. solve_decision. Defined.

#[global] Instance Level_eq_dec : EqDecision Level.
Proof. solve_decision. Defined.

#[global] Instance Field_eq_dec : EqDecision Field.
Proof. solve_decision. Defined.

End zapcore.

Module zap.
Import zapcore.

Definition String (key val : string) : Field :=
  mkField key StringType 0 val anyNil.

Definition Int (key : string) (val : Z) : Field :=
  mkField key Int64Type val "" anyNil.

Definition Skip : Field := mkField "" SkipType 0 "" anyNil.

Definition Reflect (key : string) (val : any) : Field :=
  mkField key ReflectType 0 "" val.

(** A nil error gives a no-op field. *)
Definition NamedError (key : string) (err : option error) : Field :=
  match err with
  | None => Skip
  | Some e => mkField key ErrorType 0 "" (anyError e)
  end.

Definition Error (err : option error) : Field := NamedError "error" err.

(** [zap.Any] picks the field constructor by the dynamic type of the
    value. *)
Definition Any (key : string) (value : any) : Field :=
  match value with
  | anyString s => String key s
  | anyInt n => Int key n
  | anyError e => NamedError key (Some e)
  | anyNil | anyOther _ _ => Reflect key value
  end.

(** What the logger's sink records for one call: [observer.LoggedEntry]
    without its time. *)
Record LoggedEntry := mkEntry {
  Level : zapcore.Level;
  Message : string;
  Context : list Field
}.

End zap.

Module ast.

Inductive PathElement : Type :=
  | PathName (name : string)
  | PathIndex (index : Z).

(** [type Path []PathElement] *)
Definition Path := list PathElement.

(** [fmt.Sprintf] of [%d] *)
Definition Sprintf_d (n : Z) : string := NilZero.string_of_int (Z.to_int n).

(** The loop of [Path.String], [i] being the index of the head of
    [path]. *)
Fixpoint String_from (i : nat) (path : Path) : string :=
  match path with
  | [] => ""
  | PathIndex n :: rest => "[" +:+ Sprintf_d n +:+ "]" +:+ String_from (S i) rest
  | PathName s :: rest =>
      (if Nat.eqb i 0 then "" else ".") +:+ s +:+ String_from (S i) rest
  end.

Definition String (path : Path) : string := String_from 0 path.

End ast.

(** [context.Context], with the one value this package reads from it. *)
Record Context := mkContext { path_context : ast.Path }.

(** [context.Background()] carries no path context. *)
Definition Background : Context := mkContext [].

Module graphql.
Definition GetPath (ctx : Context) : ast.Path := path_context ctx.
End graphql.

Module gqlerror.
(** [gqlerror.Error], the fields [toGQLError] sets. *)
Record Error := mkError {
  Message : string;
  Path : ast.Path;
  Extensions : gmap string any
}.
End gqlerror.

Module strconv.

Definition dquote : ascii := "034"%char.
Definition backslash : ascii := "092"%char.

Definition hexdigit (n : N) : ascii :=
  ascii_of_N (if (n <? 10)%N then 48 + n else 87 + n)%N.

Definition escaped (c : ascii) : string :=
  String.String backslash (String.String c EmptyString).

(** One byte of [strconv.Quote]. Bytes from 128 up are parts of
    multi-byte runes and are kept, which is what Quote does with
    printable runes. *)
Definition quote_byte (c : ascii) : string :=
  let n := N_of_ascii c in
  if (n =? 34)%N then escaped dquote
  else if (n =? 92)%N then escaped backslash
  else if (n =? 7)%N then escaped "a"
  else if (n =? 8)%N then escaped "b"
  else if (n =? 12)%N then escaped "f"
  else if (n =? 10)%N then escaped "n"
  else if (n =? 13)%N then escaped "r"
  else if (n =? 9)%N then escaped "t"
  else if (n =? 11)%N then escaped "v"
  else if ((n <? 32) || (n =? 127))%N then
    String.String backslash
      (String.String "x"
         (String.String (hexdigit (n / 16))
            (String.String (hexdigit (n mod 16)) EmptyString)))
  else String.String c EmptyString.

Fixpoint quote_bytes (s : string) : string :=
  match s with
  | EmptyString => EmptyString
  | String.String c rest => quote_byte c +:+ quote_bytes rest
  end.

Definition Quote (s : string) : string :=
  String.String dquote (quote_bytes s +:+ String.String dquote EmptyString).

End strconv.

(** ** Package gqlerr: data *)

(** [type ErrorID string] *)
Definition ErrorID := string.

(** [type logLevel int], with the constants of the iota block. *)
Definition logLevel := Z.

Definition unsetLevel : logLevel := 0.
Definition debugLevel : logLevel := 1.
Definition infoLevel : logLevel := 2.
Definition warnLevel : logLevel := 3.
Definition errorLevel : logLevel := 4.
Definition panicLevel : logLevel := 5.

Definition defaultLevelForCode : gmap string logLevel :=
  list_to_map
    [(codes.InvalidArgument, warnLevel);
     (codes.NotFound, warnLevel);
     (codes.AlreadyExists, warnLevel);
     (codes.PermissionDenied, warnLevel);
     (codes.ResourceExhausted, warnLevel);
     (codes.FailedPrecondition, warnLevel);
     (codes.Unimplemented, warnLevel);
     (codes.Internal, errorLevel);
     (codes.Unauthenticated, warnLevel)].

Definition defaultMessageForCode : gmap string string :=
  list_to_map
    [(codes.InvalidArgument, "invalid argument");
     (codes.NotFound, "not found");
     (codes.AlreadyExists, "already exists");
     (codes.PermissionDenied, "permission denied");
     (codes.ResourceExhausted, "resource exhausted");
     (codes.FailedPrecondition, "failed precondition");
     (codes.Unimplemented, "unimplemented");
     (codes.Internal, "internal error");
     (codes.Unauthenticated, "unauthenticated")].

(** [type Error struct] *)
Record Error := mkError {
  code : codes.Code;
  msg : string;
  path : ast.Path;
  level : logLevel;
  clientMsg : string;
  fields : list zapcore.Field;
  errorID : ErrorID
}.

#[global] Instance PathElement_eq_dec : EqDecision ast.PathElement.
Proof. solve_decision. Defined.

#[global] Instance Error_eq_dec : EqDecision Error.
Proof. solve_decision. Defined.

(** The zero value [Error{}]. *)
Definition zeroError : Error := mkError "" "" [] unsetLevel "" [] "".

(** Assignments to one field of the struct. *)
Definition set_level (l : logLevel) (e : Error) : Error :=
  mkError (code e) (msg e) (path e) l (clientMsg e) (fields e) (errorID e).

Definition set_clientMsg (m : string) (e : Error) : Error :=
  mkError (code e) (msg e) (path e) (level e) m (fields e) (errorID e).

Definition set_errorID (i : ErrorID) (e : Error) : Error :=
  mkError (code e) (msg e) (path e) (level e) (clientMsg e) (fields e) i.

Definition set_fields (fs : list zapcore.Field) (e : Error) : Error :=
  mkError (code e) (msg e) (path e) (level e) (clientMsg e) fs (errorID e).

(** ** The store and the monad of the package's effects *)

(** The allocated Error structs and the entries the logger has recorded,
    oldest first. *)
Record state := mkState {
  heap : gmap loc Error;
  logs : list zap.LoggedEntry
}.

Inductive outcome (A : Type) : Type :=
  | Ok (a : A) (s : state)
  | Panic.

Arguments Ok {A} a s.
Arguments Panic {A}.

Definition M (A : Type) : Type := state -> outcome A.

Definition ret {A} (a : A) : M A := fun s => Ok a s.

Definition bind {A B} (m : M A) (k : A -> M B) : M B :=
  fun s => match m s with
           | Ok a s' => k a s'
           | Panic => Panic
           end.

Declare Scope go_scope.
Delimit Scope go_scope with go.

Notation "x <- c1 ;; c2" := (bind c1 (fun x => c2))
  (at level 100, c1 at next level, right associativity) : go_scope.
Notation "c1 ;; c2" := (bind c1 (fun _ => c2))
  (at level 100, right associativity) : go_scope.

Local Open Scope go_scope.

Definition panic {A} : M A := fun _ => Panic.

(** [&Error{...}]: a fresh address holding the struct. *)
Definition alloc (e : Error) : M ptr :=
  fun s => let l := fresh (dom (heap s)) in
           Ok (Some l) (mkState (<[l := e]> (heap s)) (logs s)).

(** Reading through a [*Error]; a nil pointer panics. *)
Definition deref (p : ptr) : M Error :=
  fun s => match p with
           | None => Panic
           | Some l => match heap s !! l with
                       | Some e => Ok e s
                       | None => Panic
                       end
           end.

(** Writing a field through a [*Error]. *)
Definition assign (p : ptr) (f : Error -> Error) : M unit :=
  e <- deref p ;;
  fun s => match p with
           | None => Panic
           | Some l => Ok tt (mkState (<[l := f e]> (heap s)) (logs s))
           end.

Definition get_heap : M (gmap loc Error) := fun s => Ok (heap s) s.

(** The five logger methods the package calls, on the recording sink. That
    [DPanic] aborts after writing when the logger is in development mode is
    the logger's own behaviour and is left out. *)
Module Logger.
Definition log (lvl : zapcore.Level) (m : string)
    (fs : list zapcore.Field) : M unit :=
  fun s => Ok tt (mkState (heap s) (logs s ++ [zap.mkEntry lvl m fs])).

Definition Debug := log zapcore.DebugLevel.
Definition Info := log zapcore.InfoLevel.
Definition Warn := log zapcore.WarnLevel.
Definition Error := log zapcore.ErrorLevel.
Definition DPanic := log zapcore.DPanicLevel.
End Logger.

(** ** Package gqlerr: methods of [*Error]

    The reading methods take the struct the pointer was dereferenced to;
    [Error_Error] and [Error_logLevel] are the methods [Error] and
    [logLevel], whose names the types of the same name have taken. *)

(** The loop of [err]: the first field with key [error], type tag
    [ErrorType] and an error in its [Interface]. *)
Fixpoint err_range (fs : list zapcore.Field) : option error :=
  match fs with
  | [] => None
  | f :: rest =>
      if bool_decide (zapcore.Key f ≠ "error")
         || bool_decide (zapcore.FType f ≠ zapcore.ErrorType)
      then err_range rest
      else match zapcore.Interface f with
           | anyError errVal => Some errVal
           | _ => err_range rest
           end
  end.

Definition err (e : Error) : option error := err_range (fields e).

(** The method call [c.Error()] on an interface value, [self] being the
    method of [*Error]. *)
Definition call_Error (self : ptr -> option string) (c : error)
    : option string :=
  match c with
  | Opaque d | Wrapped d _ => Some (dyn_text d)
  | ErrorPtr q => self q
  end.

(** The method [Error] of [*Error]. The verb [%v] prints a cause by calling its [Error]
    method, which is this method again when the cause is a [*Error]: [fuel]
    bounds that nesting. *)
Fixpoint Error_Error (fuel : nat) (h : gmap loc Error) (p : ptr)
    : option string :=
  match fuel with
  | O => None
  | S n =>
      match p with
      | None => Some ""
      | Some l =>
          match h !! l with
          | None => None
          | Some e =>
              match err e with
              | None => Some ("[" +:+ strconv.Quote (code e) +:+ "] " +:+ msg e)
              | Some c =>
                  match call_Error (Error_Error n h) c with
                  | None => None
                  | Some v =>
                      Some ("[" +:+ strconv.Quote (code e) +:+ "] " +:+ msg e
                            +:+ ": " +:+ v)
                  end
              end
          end
      end
  end.

Definition extensions (e : Error) : gmap string any :=
  let ext : gmap string any := {[ "code" := anyString (code e) ]} in
  if bool_decide (errorID e ≠ "")
  then <[ "error_reason" := anyString (errorID e) ]> ext
  else ext.

Definition Error_logLevel (e : Error) : logLevel :=
  if bool_decide (level e ≠ unsetLevel) then level e
  else match defaultLevelForCode !! code e with
       | None => errorLevel
       | Some lvl => lvl
       end.

(** A Go map lookup gives the zero value for a missing key. *)
Definition clientMessage (e : Error) : string :=
  if bool_decide (clientMsg e ≠ "") then clientMsg e
  else default "" (defaultMessageForCode !! code e).

Definition toGQLError (p : ptr) : M (option gqlerror.Error) :=
  match p with
  | None => ret None
  | Some _ =>
      e <- deref p ;;
      ret (Some (gqlerror.mkError (clientMessage e) (path e) (extensions e)))
  end.

Definition WithMessage (p : ptr) (m : string) : M ptr :=
  assign p (set_clientMsg m) ;; ret p.

Definition WithErrorID (p : ptr) (errID : ErrorID) : M ptr :=
  assign p (set_errorID errID) ;; ret p.

Definition AtDebug (p : ptr) : M ptr := assign p (set_level debugLevel) ;; ret p.
Definition AtInfo (p : ptr) : M ptr := assign p (set_level infoLevel) ;; ret p.
Definition AtWarn (p : ptr) : M ptr := assign p (set_level warnLevel) ;; ret p.
Definition AtError (p : ptr) : M ptr := assign p (set_level errorLevel) ;; ret p.
Definition AtPanic (p : ptr) : M ptr := assign p (set_level panicLevel) ;; ret p.

(** ** Package gqlerr: functions *)

Definition New (ctx : Context) (c : codes.Code) (m : string)
    (fs : list zapcore.Field) : M ptr :=
  alloc (mkError c m (graphql.GetPath ctx) unsetLevel "" fs "").

Definition Internal ctx := New ctx codes.Internal.
Definition InvalidArgument ctx := New ctx codes.InvalidArgument.
Definition NotFound ctx := New ctx codes.NotFound.
Definition AlreadyExists ctx := New ctx codes.AlreadyExists.
Definition PermissionDenied ctx := New ctx codes.PermissionDenied.
Definition ResourceExhausted ctx := New ctx codes.ResourceExhausted.
Definition FailedPrecondition ctx := New ctx codes.FailedPrecondition.
Definition Unimplemented ctx := New ctx codes.Unimplemented.
Definition Unauthenticated ctx := New ctx codes.Unauthenticated.

(** The nine constructors, in the order of the source. *)
Definition constructors
    : list (codes.Code * (Context -> string -> list zapcore.Field -> M ptr)) :=
  [(codes.Internal, Internal);
   (codes.InvalidArgument, InvalidArgument);
   (codes.NotFound, NotFound);
   (codes.AlreadyExists, AlreadyExists);
   (codes.PermissionDenied, PermissionDenied);
   (codes.ResourceExhausted, ResourceExhausted);
   (codes.FailedPrecondition, FailedPrecondition);
   (codes.Unimplemented, Unimplemented);
   (codes.Unauthenticated, Unauthenticated)].

(** [RecoverFunc]; [stack] is what [debug.Stack()] returns at the call. *)
Definition RecoverFunc (stack : string) (ctx : Context) (v : any) : M error :=
  p <- Internal ctx stack [zap.Any "recover" v] ;;
  p <- AtPanic p ;;
  ret (ErrorPtr p).

Definition logError (p : ptr) : M unit :=
  e <- deref p ;;
  let logFn :=
    match Error_logLevel e with
    | 1 => Logger.Debug
    | 2 => Logger.Info
    | 3 => Logger.Warn
    | 4 => Logger.Error
    | 5 => Logger.DPanic
    | _ => Logger.Error
    end in
  (if bool_decide (ast.String (path e) ≠ "")
   then assign p (set_fields
                    (zap.String "gql_path" (ast.String (path e)) :: fields e))
   else ret tt) ;;
  e <- deref p ;;
  logFn (msg e) (fields e).

(** [err.Error()] in the presenter. An allocated Error value can only hold
    values allocated before it, so the nesting of Error values is at most
    the size of the heap. *)
Definition Error_of (x : error) : M string :=
  h <- get_heap ;;
  match call_Error (Error_Error (S (size h)) h) x with
  | Some s => ret s
  | None => panic
  end.

(** The function [ErrorPresenter(logger)] returns; the logger is the sink of
    the state. *)
Definition ErrorPresenter (ctx : Context) (err : option error)
    : M (option gqlerror.Error) :=
  match err with
  | None => ret None
  | Some err =>
      _ <- alloc zeroError ;;
      match errors.As err with
      | Some e => logError e ;; toGQLError e
      | None =>
          Logger.Error "received error that was not of type *gqlerr.Error"
            [zap.String "type" (Sprintf_T err); zap.Error (Some err)] ;;
          m <- Error_of err ;;
          e <- Internal ctx m [zap.Error (Some err)] ;;
          toGQLError e
      end
  end.

(** The empty store with an empty log. *)
Definition init : state := mkState ∅ [].

(** The error of the tests: [type randomError struct{}]. *)
Definition randomError : error :=
  Opaque (mkDyn "gqlerr.randomError" 0 "a random error" true).

(** ** Vocabulary of the properties *)

(** The Unwrap chain of an error, the error itself first. *)
Fixpoint unwrap_chain (x : error) : list error :=
  x :: match x with
       | Wrapped _ inner => unwrap_chain inner
       | Opaque _ | ErrorPtr _ => []
       end.

(** An element of the chain has dynamic type [*Error]. *)
Definition is_ErrorPtr (x : error) : bool :=
  match x with
  | ErrorPtr _ => true
  | Opaque _ | Wrapped _ _ => false
  end.

(** The seven decoration methods as data, to speak of sequences of them. *)
Inductive decoration : Type :=
  | DWithMessage (m : string)
  | DWithErrorID (errID : ErrorID)
  | DAtDebug | DAtInfo | DAtWarn | DAtError | DAtPanic.

Definition decorate (p : ptr) (d : decoration) : M ptr :=
  match d with
  | DWithMessage m => WithMessage p m
  | DWithErrorID errID => WithErrorID p errID
  | DAtDebug => AtDebug p
  | DAtInfo => AtInfo p
  | DAtWarn => AtWarn p
  | DAtError => AtError p
  | DAtPanic => AtPanic p
  end.

(** A call chain [e.d1().d2()...]. *)
Fixpoint decorate_all (p : ptr) (ds : list decoration) : M ptr :=
  match ds with
  | [] => ret p
  | d :: rest => p <- decorate p d ;; decorate_all p rest
  end.

(** The three override fields and the one each decoration is for. *)
Inductive override : Type := OLevel | OClientMsg | OErrorID.

Definition override_of (d : decoration) : override :=
  match d with
  | DWithMessage _ => OClientMsg
  | DWithErrorID _ => OErrorID
  | DAtDebug | DAtInfo | DAtWarn | DAtError | DAtPanic => OLevel
  end.

(** The struct after the decoration's one write. *)
Definition written (d : decoration) (e : Error) : Error :=
  match d with
  | DWithMessage m => set_clientMsg m e
  | DWithErrorID errID => set_errorID errID e
  | DAtDebug => set_level debugLevel e
  | DAtInfo => set_level infoLevel e
  | DAtWarn => set_level warnLevel e
  | DAtError => set_level errorLevel e
  | DAtPanic => set_level panicLevel e
  end.

(** The severity-to-sink-method table as the specification words it:
    debug, info, warn and error to the method of the same name, panic to
    DPanic, and unset or anything else to error. *)
Definition sink_method (lvl : logLevel) : zapcore.Level :=
  if bool_decide (lvl = debugLevel) then zapcore.DebugLevel
  else if bool_decide (lvl = infoLevel) then zapcore.InfoLevel
  else if bool_decide (lvl = warnLevel) then zapcore.WarnLevel
  else if bool_decide (lvl = errorLevel) then zapcore.ErrorLevel
  else if bool_decide (lvl = panicLevel) then zapcore.DPanicLevel
  else zapcore.ErrorLevel.

(** The field [logError] prepends for a path. *)
Definition gql_path_field (pth : ast.Path) : zapcore.Field :=
  zap.String "gql_path" (ast.String pth).

(** The fields of the entry [logError] writes for a value. *)
Definition logged_fields (e : Error) : list zapcore.Field :=
  if bool_decide (ast.String (path e) = "") then fields e
  else gql_path_field (path e) :: fields e.

(** The heap after [logError] on the value [e] at [l]. *)
Definition after_logError (l : loc) (e : Error) (h : gmap loc Error)
    : gmap loc Error :=
  if bool_decide (ast.String (path e) = "") then h
  else <[l := set_fields (logged_fields e) e]> h.

(** The response fragment of a value. *)
Definition fragment (e : Error) : gqlerror.Error :=
  gqlerror.mkError (clientMessage e) (path e) (extensions e).


(** The error a field hands to [err], if any: key [error], type tag
    [ErrorType] and an error in the [Interface]. *)
Definition is_cause (f : zapcore.Field) : option error :=
  if bool_decide (zapcore.Key f = "error")
     && bool_decide (zapcore.FType f = zapcore.ErrorType)
  then match zapcore.Interface f with
       | anyError c => Some c
       | _ => None
       end
  else None.




(** ** The earlier revision of the file

    gqlerr.go holds an earlier revision too, without [panicLevel],
    [AtPanic], [RecoverFunc] and the [gql_path] field. Its data, tables,
    methods and constructors are those above; [logError] differs, and
    [ErrorPresenter] with it. *)

Module rev1.

Definition logError (p : ptr) : M unit :=
  e <- deref p ;;
  let logFn :=
    match Error_logLevel e with
    | 1 => Logger.Debug
    | 2 => Logger.Info
    | 3 => Logger.Warn
    | 4 => Logger.Error
    | _ => Logger.Error
    end in
  logFn (msg e) (fields e).

Definition ErrorPresenter (ctx : Context) (err : option error)
    : M (option gqlerror.Error) :=
  match err with
  | None => ret None
  | Some err =>
      _ <- alloc zeroError ;;
      match errors.As err with
      | Some e => logError e ;; toGQLError e
      | None =>
          Logger.Error "received error that was not of type *gqlerr.Error"
            [zap.String "type" (Sprintf_T err); zap.Error (Some err)] ;;
          m <- Error_of err ;;
          e <- Internal ctx m [zap.Error (Some err)] ;;
          toGQLError e
      end
  end.

End rev1.

(** ** Vocabulary of the store's shape *)

(** The allocated Error value a list of fields names as its cause, when
    the cause is a non-nil [*Error]. *)
Definition cause_loc (fs : list zapcore.Field) : option loc :=
  match err_range fs with
  | Some (ErrorPtr (Some q)) => Some q
  | _ => None
  end.

(** Every cause that is a [*Error] is allocated and of smaller rank than
    the value that names it: the chain of causes of a value ends. *)
Definition ranked (r : loc -> nat) (h : gmap loc Error) : Prop :=
  forall l e q,
    h !! l = Some e -> cause_loc (fields e) = Some q ->
    is_Some (h !! q) /\ (r q < r l)%nat.

Definition acyclic (h : gmap loc Error) : Prop := exists r, ranked r h.

(** The level is one of the six constants of the iota block. *)
Definition level_known (lvl : logLevel) : Prop := 0 <= lvl <= 5.

(** * Properties *)

(** ** The store *)

Lemma fresh_unallocated (h : gmap loc Error) : h !! fresh (dom h) = None.
Proof. apply not_elem_of_dom, is_fresh. Qed.

Lemma allocated_not_fresh (h : gmap loc Error) l e :
  h !! l = Some e -> fresh (dom h) ≠ l.
Proof.
  intros H Heq. rewrite <- Heq, fresh_unallocated in H. discriminate.
Qed.

Lemma lookup_alloc_old (h : gmap loc Error) l e0 :
  <[fresh (dom h) := e0]> h !! l = match h !! l with
                                   | Some e => Some e
                                   | None => if bool_decide (fresh (dom h) = l)
                                             then Some e0 else None
                                   end.
Proof.
  destruct (h !! l) as [e|] eqn:Hl.
  - rewrite lookup_insert_ne; [done|]. by eapply allocated_not_fresh.
  - case_bool_decide as Hf.
    + subst l. apply lookup_insert_eq.
    + by rewrite lookup_insert_ne.
Qed.

Lemma New_spec ctx c m fs s :
  New ctx c m fs s =
  Ok (Some (fresh (dom (heap s))))
     (mkState (<[fresh (dom (heap s)) :=
                 mkError c m (graphql.GetPath ctx) unsetLevel "" fs ""]> (heap s))
              (logs s)).
Proof. reflexivity. Qed.

Lemma deref_allocated l e s : heap s !! l = Some e -> deref (Some l) s = Ok e s.
Proof. intros H. unfold deref. by rewrite H. Qed.

Lemma assign_allocated l e f s :
  heap s !! l = Some e ->
  assign (Some l) f s = Ok tt (mkState (<[l := f e]> (heap s)) (logs s)).
Proof. intros H. unfold assign, bind. by rewrite (deref_allocated l e). Qed.

(** ** Severity resolution *)

Lemma logLevel_override e : level e ≠ unsetLevel -> Error_logLevel e = level e.
Proof. intros H. unfold Error_logLevel. by rewrite bool_decide_eq_true_2. Qed.

Lemma logLevel_default e :
  level e = unsetLevel ->
  Error_logLevel e = default errorLevel (defaultLevelForCode !! code e).
Proof.
  intros H. unfold Error_logLevel. rewrite bool_decide_eq_false_2 by tauto.
  by destruct (defaultLevelForCode !! code e).
Qed.

(** C3. Each of the nine constructors returns a fresh Error value with its
    code and no severity override, whose resolved severity is the default
    the table gives the code: error for internal, warn for the other eight.
    In general the resolved severity is the override when one is set, else
    the table's default for the code, else error when the table has no entry
    for the code. *)
Theorem resolved_severity :
  Forall (fun '(c, ctor) =>
            forall ctx m fs s, exists l s' e,
              (ctor ctx m fs s : outcome ptr) = Ok (Some l) s'
              /\ heap s' !! l = Some e
              /\ code e = c /\ level e = unsetLevel
              /\ defaultLevelForCode !! c = Some (Error_logLevel e)
              /\ Error_logLevel e =
                 (if bool_decide (c = codes.Internal) then errorLevel
                  else warnLevel))
         constructors
  /\ (forall e, level e ≠ unsetLevel -> Error_logLevel e = level e)
  /\ (forall e lvl, level e = unsetLevel ->
        defaultLevelForCode !! code e = Some lvl -> Error_logLevel e = lvl)
  /\ (forall e, level e = unsetLevel ->
        defaultLevelForCode !! code e = None -> Error_logLevel e = errorLevel).
Proof.
  split; [|split; [|split]].
  - unfold constructors.
    repeat first [apply List.Forall_cons | apply List.Forall_nil];
      intros ctx m fs s; do 3 eexists;
      (split; [apply New_spec|]); simpl;
      (split; [apply lookup_insert_eq|]); simpl;
      repeat split; reflexivity.
  - apply logLevel_override.
  - intros e lvl H1 H2. by rewrite logLevel_default, H2.
  - intros e H1 H2. by rewrite logLevel_default, H2.
Qed.

Lemma resolved_severity_witness :
  Error_logLevel (mkError codes.NotFound "m" [] infoLevel "" [] "") = infoLevel
  /\ Error_logLevel (mkError codes.NotFound "m" [] unsetLevel "" [] "") = warnLevel
  /\ Error_logLevel (mkError "teapot" "m" [] unsetLevel "" [] "") = errorLevel.
Proof.
  destruct resolved_severity as (_ & Hover & Hdef & Hnone).
  split; [apply Hover; discriminate|].
  split; [apply Hdef; reflexivity | apply Hnone; reflexivity].
Defined.

(** ** Client message resolution *)

Lemma clientMessage_override e : clientMsg e ≠ "" -> clientMessage e = clientMsg e.
Proof. intros H. unfold clientMessage. by rewrite bool_decide_eq_true_2. Qed.

Lemma clientMessage_default e :
  clientMsg e = "" ->
  clientMessage e = default "" (defaultMessageForCode !! code e).
Proof.
  intros H. unfold clientMessage. by rewrite bool_decide_eq_false_2 by tauto.
Qed.

Lemma toGQLError_allocated l e s :
  heap s !! l = Some e ->
  toGQLError (Some l) s =
  Ok (Some (gqlerror.mkError (clientMessage e) (path e) (extensions e))) s.
Proof. intros H. unfold toGQLError, bind. by rewrite (deref_allocated l e). Qed.

(** C8, as the claim states it, fails: an Error value made by [New] with a
    code the tables do not have, and no overrides, resolves to the empty
    client message, not to the default message of internal. *)
Lemma client_message_out_of_table_counterexample :
  exists l s e,
    New Background "teapot" "short and stout" [] init = Ok (Some l) s
    /\ heap s !! l = Some e
    /\ defaultMessageForCode !! code e = None
    /\ defaultMessageForCode !! codes.Internal = Some "internal error"
    /\ clientMessage e = ""
    /\ clientMessage e ≠ "internal error".
Proof.
  do 3 eexists. split; [apply New_spec|].
  split; [apply lookup_insert_eq|].
  repeat split; try reflexivity. discriminate.
Qed.

(** C8, amended. Both resolutions are total functions of the Error value
    and the presenter's two reads of an allocated value do not panic. The
    resolved client message is the override when it is not empty, else the
    table's message for the code, else the empty string when the table has
    no entry for the code; with no overrides and a code outside both tables
    the resolved severity is error. *)
Theorem resolution_total l e s :
  heap s !! l = Some e ->
  (exists g, toGQLError (Some l) s = Ok (Some g) s
             /\ gqlerror.Message g = clientMessage e)
  /\ (exists s', logError (Some l) s = Ok tt s')
  /\ (clientMsg e ≠ "" -> clientMessage e = clientMsg e)
  /\ (forall m, clientMsg e = "" -> defaultMessageForCode !! code e = Some m ->
        clientMessage e = m)
  /\ (clientMsg e = "" -> defaultMessageForCode !! code e = None ->
        clientMessage e = "")
  /\ (level e = unsetLevel -> defaultLevelForCode !! code e = None ->
        Error_logLevel e = errorLevel).
Proof.
  intros Hl. repeat split.
  - eexists. split; [by apply toGQLError_allocated|done].
  - unfold logError, bind. rewrite (deref_allocated l e) by done.
    case_bool_decide.
    + rewrite (assign_allocated l e) by done. simpl.
      unfold deref. simpl. rewrite lookup_insert_eq.
      destruct (Error_logLevel e) as [|[[[]|[]|]|[[]|[]|]|]|]; by eexists.
    + unfold ret. rewrite (deref_allocated l e) by done.
      destruct (Error_logLevel e) as [|[[[]|[]|]|[[]|[]|]|]|]; by eexists.
  - apply clientMessage_override.
  - intros m H1 H2. by rewrite clientMessage_default, H2.
  - intros H1 H2. by rewrite clientMessage_default, H2.
  - intros H1 H2. by rewrite logLevel_default, H2.
Qed.

Lemma resolution_total_witness :
  let e := mkError "teapot" "short and stout" [] unsetLevel "" [] "" in
  clientMessage e = "" /\ Error_logLevel e = errorLevel.
Proof.
  pose (e := mkError "teapot" "short and stout" [] unsetLevel "" [] "").
  destruct (resolution_total 1%positive e (mkState {[1%positive := e]} []))
    as (_ & _ & _ & _ & Hm & Hl); [reflexivity|].
  split; [apply Hm; reflexivity | apply Hl; reflexivity].
Defined.

(** ** Decoration *)

Lemma decorate_spec l e d s :
  heap s !! l = Some e ->
  decorate (Some l) d s =
  Ok (Some l) (mkState (<[l := written d e]> (heap s)) (logs s)).
Proof.
  intros H.
  destruct d; simpl;
    unfold WithMessage, WithErrorID, AtDebug, AtInfo, AtWarn, AtError, AtPanic,
      bind;
    by rewrite (assign_allocated l e).
Qed.

Lemma decorate_twice l e d1 d2 s :
  heap s !! l = Some e ->
  (p <- decorate (Some l) d1 ;; decorate p d2) s =
  Ok (Some l) (mkState (<[l := written d2 (written d1 e)]> (heap s)) (logs s)).
Proof.
  intros H. unfold bind at 1. rewrite (decorate_spec l e) by done.
  rewrite (decorate_spec l (written d1 e)) by apply lookup_insert_eq.
  simpl. by rewrite insert_insert_eq.
Qed.

Lemma decorate_all_spec ds : forall l e s,
  heap s !! l = Some e ->
  decorate_all (Some l) ds s =
  Ok (Some l)
     (mkState (<[l := foldl (fun e d => written d e) e ds]> (heap s)) (logs s)).
Proof.
  induction ds as [|d ds IH]; intros l e s H; simpl.
  - unfold ret. rewrite insert_id by done. by destruct s.
  - unfold bind. rewrite (decorate_spec l e) by done.
    rewrite (IH l (written d e)) by apply lookup_insert_eq.
    simpl. by rewrite insert_insert_eq.
Qed.

(** C5. A decoration called on an allocated Error value returns the pointer
    it was called on and changes nothing but that value's own override
    field, to the value given; a second decoration of the same field
    overwrites the first (so applying one twice is applying it once);
    decorations of different fields give the same value in either order;
    and any sequence of decorations can be chained, each field ending with
    its last write. *)
Theorem decorations_overwrite l e s (d : decoration) :
  heap s !! l = Some e ->
  decorate (Some l) d s =
    Ok (Some l) (mkState (<[l := written d e]> (heap s)) (logs s))
  /\ (code (written d e) = code e /\ msg (written d e) = msg e
      /\ path (written d e) = path e /\ fields (written d e) = fields e)
  /\ (override_of d ≠ OLevel -> level (written d e) = level e)
  /\ (override_of d ≠ OClientMsg -> clientMsg (written d e) = clientMsg e)
  /\ (override_of d ≠ OErrorID -> errorID (written d e) = errorID e)
  /\ match d with
     | DWithMessage m => clientMsg (written d e) = m
     | DWithErrorID errID => errorID (written d e) = errID
     | DAtDebug => level (written d e) = debugLevel
     | DAtInfo => level (written d e) = infoLevel
     | DAtWarn => level (written d e) = warnLevel
     | DAtError => level (written d e) = errorLevel
     | DAtPanic => level (written d e) = panicLevel
     end
  /\ (forall d', override_of d' = override_of d ->
        (p <- decorate (Some l) d' ;; decorate p d) s = decorate (Some l) d s)
  /\ (forall d', override_of d' ≠ override_of d ->
        (p <- decorate (Some l) d' ;; decorate p d) s =
        (p <- decorate (Some l) d ;; decorate p d') s)
  /\ (forall ds,
        decorate_all (Some l) ds s =
        Ok (Some l)
           (mkState (<[l := foldl (fun e d => written d e) e ds]> (heap s))
                    (logs s))).
Proof.
  intros H.
  split; [by apply decorate_spec|].
  split; [by destruct d|].
  split; [by destruct d|].
  split; [by destruct d|].
  split; [by destruct d|].
  split; [by destruct d|].
  split; [|split].
  - intros d' Hsame. rewrite (decorate_twice l e), (decorate_spec l e) by done.
    by destruct d, d'.
  - intros d' Hdiff. rewrite !(decorate_twice l e) by done.
    by destruct d, d'.
  - intros ds. by apply decorate_all_spec.
Qed.

Lemma decorations_overwrite_witness :
  let s := mkState {[1%positive := zeroError]} [] in
  (p <- AtWarn (Some 1%positive) ;; AtError p) s = AtError (Some 1%positive) s
  /\ (p <- WithMessage (Some 1%positive) "a" ;; AtError p) s =
     (p <- AtError (Some 1%positive) ;; WithMessage p "a") s.
Proof.
  pose (s := mkState {[1%positive := zeroError]} []).
  split.
  - destruct (decorations_overwrite 1%positive zeroError s DAtError)
      as (_ & _ & _ & _ & _ & _ & Hlast & _ & _); [reflexivity|].
    exact (Hlast DAtWarn eq_refl).
  - destruct (decorations_overwrite 1%positive zeroError s DAtError)
      as (_ & _ & _ & _ & _ & _ & _ & Hcomm & _); [reflexivity|].
    refine (Hcomm (DWithMessage "a") _). discriminate.
Defined.

(** ** Logging *)

Lemma logFn_sink_method (lvl : logLevel) :
  match lvl with
  | 1 => Logger.Debug
  | 2 => Logger.Info
  | 3 => Logger.Warn
  | 4 => Logger.Error
  | 5 => Logger.DPanic
  | _ => Logger.Error
  end = Logger.log (sink_method lvl).
Proof.
  destruct lvl as [|p|p]; [reflexivity| |reflexivity].
  destruct p as [[[q|q|]|[q|q|]|]|[[q|q|]|[q|q|]|]|]; reflexivity.
Qed.

Lemma logError_spec l e s :
  heap s !! l = Some e ->
  logError (Some l) s =
  Ok tt (mkState (after_logError l e (heap s))
           (logs s ++ [zap.mkEntry (sink_method (Error_logLevel e)) (msg e)
                         (logged_fields e)])).
Proof.
  intros H. unfold logError, bind at 1. rewrite (deref_allocated l e) by done.
  rewrite logFn_sink_method.
  unfold after_logError, logged_fields, gql_path_field, bind.
  case_bool_decide as Hp.
  - rewrite (assign_allocated l e) by done.
    rewrite bool_decide_eq_false_2 by done.
    unfold deref. simpl. by rewrite lookup_insert_eq.
  - rewrite bool_decide_eq_true_2 by done.
    unfold ret. by rewrite (deref_allocated l e).
Qed.

Lemma after_logError_same l e h :
  h !! l = Some e ->
  after_logError l e h !! l = Some (set_fields (logged_fields e) e).
Proof.
  intros H. unfold after_logError, logged_fields.
  case_bool_decide.
  - rewrite H. by destruct e.
  - apply lookup_insert_eq.
Qed.

Lemma after_logError_other l e h l' :
  l' ≠ l -> after_logError l e h !! l' = h !! l'.
Proof.
  intros H. unfold after_logError. case_bool_decide; [done|].
  by apply lookup_insert_ne.
Qed.

(** ** The presenter *)

Lemma As_None_iff x :
  errors.As x = None <-> Forall (fun y => is_ErrorPtr y = false) (unwrap_chain x).
Proof.
  induction x as [d|d inner IH|p]; simpl.
  - split; [intros _; by repeat constructor|done].
  - rewrite IH. split.
    + intros H. by constructor.
    + intros H. by inversion H.
  - split; [done|]. intros H. by inversion H.
Qed.

Lemma Error_of_foreign x s :
  errors.As x = None -> exists m, Error_of x s = Ok m s.
Proof.
  intros H. unfold Error_of, bind, get_heap.
  destruct x as [d|d inner|p]; simpl in *;
    [by eexists | by eexists | discriminate].
Qed.

Lemma presenter_resolved ctx x s l e :
  errors.As x = Some (Some l) -> heap s !! l = Some e ->
  ErrorPresenter ctx (Some x) s =
  Ok (Some (fragment e))
     (mkState (after_logError l e (<[fresh (dom (heap s)) := zeroError]> (heap s)))
        (logs s ++ [zap.mkEntry (sink_method (Error_logLevel e)) (msg e)
                      (logged_fields e)])).
Proof.
  intros HAs Hl. unfold ErrorPresenter. rewrite HAs.
  unfold bind at 1. unfold alloc.
  assert (Hl' : <[fresh (dom (heap s)) := zeroError]> (heap s) !! l = Some e).
  { by rewrite lookup_alloc_old, Hl. }
  unfold bind. rewrite (logError_spec l e) by done. simpl.
  unfold bind.
  rewrite (deref_allocated l (set_fields (logged_fields e) e))
    by (by apply after_logError_same).
  reflexivity.
Qed.

Lemma presenter_unresolved ctx x s :
  errors.As x = None ->
  exists s',
    ErrorPresenter ctx (Some x) s =
      Ok (Some (gqlerror.mkError "internal error" (graphql.GetPath ctx)
                  {[ "code" := anyString "internal" ]})) s'
    /\ logs s' =
       logs s ++
       [zap.mkEntry zapcore.ErrorLevel
          "received error that was not of type *gqlerr.Error"
          [zap.String "type" (Sprintf_T x); zap.Error (Some x)]]
    /\ forall l e, heap s !! l = Some e -> heap s' !! l = Some e.
Proof.
  intros HAs. unfold ErrorPresenter. rewrite HAs.
  unfold bind at 1. unfold alloc.
  unfold bind at 1. unfold Logger.Error, Logger.log.
  unfold bind at 1.
  destruct (Error_of_foreign x
              (mkState (<[fresh (dom (heap s)) := zeroError]> (heap s))
                 (logs s ++
                  [zap.mkEntry zapcore.ErrorLevel
                     "received error that was not of type *gqlerr.Error"
                     [zap.String "type" (Sprintf_T x); zap.Error (Some x)]])))
    as [m Hm]; [done|].
  simpl in Hm. simpl. rewrite Hm.
  unfold bind, Internal. rewrite New_spec. simpl.
  eexists. split; [|split].
  - unfold bind, deref. cbn [heap]. rewrite lookup_insert_eq. reflexivity.
  - reflexivity.
  - intros l e Hl. simpl. rewrite lookup_alloc_old.
    rewrite lookup_alloc_old, Hl. done.
Qed.

(** C1. When no error of the input's Unwrap chain has dynamic type
    [*gqlerr.Error], the presenter adds exactly one entry to the log, at
    error severity, with the message [received error that was not of type
    *gqlerr.Error] and the two fields [type], a string field holding the
    input's dynamic type name, and [error], an error field holding the
    input itself; and it returns a fragment with message [internal error],
    the path of the context, and the extensions map with the one entry
    [code] = [internal]. *)
Theorem presenter_foreign_error ctx x s :
  Forall (fun y => is_ErrorPtr y = false) (unwrap_chain x) ->
  exists s',
    ErrorPresenter ctx (Some x) s =
      Ok (Some (gqlerror.mkError "internal error" (graphql.GetPath ctx)
                  {[ "code" := anyString "internal" ]})) s'
    /\ logs s' =
       logs s ++
       [zap.mkEntry zapcore.ErrorLevel
          "received error that was not of type *gqlerr.Error"
          [zapcore.mkField "type" zapcore.StringType 0 (Sprintf_T x) anyNil;
           zapcore.mkField "error" zapcore.ErrorType 0 "" (anyError x)]].
Proof.
  intros H. apply As_None_iff in H.
  destruct (presenter_unresolved ctx x s H) as (s' & Hrun & Hlog & _).
  exists s'. split; [exact Hrun | exact Hlog].
Qed.

Lemma presenter_foreign_error_witness :
  exists s',
    ErrorPresenter Background (Some randomError) init =
      Ok (Some (gqlerror.mkError "internal error" []
                  {[ "code" := anyString "internal" ]})) s'
    /\ logs s' =
       [zap.mkEntry zapcore.ErrorLevel
          "received error that was not of type *gqlerr.Error"
          [zapcore.mkField "type" zapcore.StringType 0 "gqlerr.randomError"
             anyNil;
           zapcore.mkField "error" zapcore.ErrorType 0 "" (anyError randomError)]].
Proof.
  apply (presenter_foreign_error Background randomError init).
  repeat constructor.
Defined.





(** C4. The presenter does nothing for a nil error: no entry, no fragment.
    For a nil [*Error] stored in a non-nil error interface it does not
    return at all: [errors.As] stores the nil pointer and [logError] reads
    through it, so the call panics before anything is logged, although
    [toGQLError] has a case for the nil pointer. *)
Theorem presenter_nil_pointer_panics ctx s :
  ErrorPresenter ctx None s = Ok None s
  /\ errors.As (ErrorPtr None) = Some None
  /\ toGQLError None s = Ok None s
  /\ logError None s = Panic
  /\ ErrorPresenter ctx (Some (ErrorPtr None)) s = Panic.
Proof. repeat split. Qed.

(** ** What the presenter leaves of the value *)

(** C9, as the claim states it, fails: presenting an Error value made in a
    request context with the path [user] leaves the value with the field
    [gql_path] in front of the fields its constructor was given. *)
Lemma presenter_mutates_fields_counterexample :
  let ctx := mkContext [ast.PathName "user"] in
  exists l s0 e g s1 e',
    NotFound ctx "no such user" [zap.String "id" "7"] init = Ok (Some l) s0
    /\ heap s0 !! l = Some e
    /\ ErrorPresenter ctx (Some (ErrorPtr (Some l))) s0 = Ok g s1
    /\ heap s1 !! l = Some e'
    /\ fields e = [zap.String "id" "7"]
    /\ fields e' = [zap.String "gql_path" "user"; zap.String "id" "7"]
    /\ fields e' ≠ fields e.
Proof.
  intros ctx. do 6 eexists.
  split; [apply New_spec|].
  split; [apply lookup_insert_eq|].
  split; [apply presenter_resolved; [reflexivity|apply lookup_insert_eq]|].
  split; [apply after_logError_same; rewrite lookup_alloc_old;
          cbn [heap]; by rewrite lookup_insert_eq|].
  repeat split. discriminate.
Qed.

(** C9, amended. Presenting an allocated Error value leaves its code,
    internal message, path, severity override, client message override and
    error identifier as they were, and leaves every other allocated value
    untouched. Its fields are left as they were when the path prints as the
    empty string; otherwise the value is left with the field [gql_path] in
    front of its fields. *)
Theorem presenter_frame ctx x s l e :
  errors.As x = Some (Some l) -> heap s !! l = Some e ->
  exists g s' e',
    ErrorPresenter ctx (Some x) s = Ok g s'
    /\ heap s' !! l = Some e'
    /\ (code e' = code e /\ msg e' = msg e /\ path e' = path e
        /\ level e' = level e /\ clientMsg e' = clientMsg e
        /\ errorID e' = errorID e)
    /\ (ast.String (path e) = "" -> fields e' = fields e)
    /\ (ast.String (path e) ≠ "" ->
        fields e' =
        zapcore.mkField "gql_path" zapcore.StringType 0 (ast.String (path e))
          anyNil :: fields e)
    /\ (forall l' e0, l' ≠ l -> heap s !! l' = Some e0 -> heap s' !! l' = Some e0).
Proof.
  intros HAs Hl. do 3 eexists.
  split; [by apply presenter_resolved|]. cbn [heap].
  split; [apply after_logError_same; by rewrite lookup_alloc_old, Hl|].
  split; [done|]. unfold logged_fields. cbn [fields set_fields].
  split; [|split].
  - intros H. by rewrite bool_decide_eq_true_2.
  - intros H. by rewrite bool_decide_eq_false_2.
  - intros l' e0 Hne H0. rewrite after_logError_other by done.
    by rewrite lookup_alloc_old, H0.
Qed.

Lemma presenter_frame_witness :
  let e := mkError codes.NotFound "no such user" [ast.PathName "user"]
             unsetLevel "" [zap.String "id" "7"] "" in
  exists g s' e',
    ErrorPresenter Background (Some (ErrorPtr (Some 1%positive)))
      (mkState {[1%positive := e]} []) = Ok g s'
    /\ heap s' !! 1%positive = Some e'
    /\ code e' = codes.NotFound
    /\ fields e' = [zap.String "gql_path" "user"; zap.String "id" "7"].
Proof.
  intros e.
  destruct (presenter_frame Background (ErrorPtr (Some 1%positive))
              (mkState {[1%positive := e]} []) 1%positive e)
    as (g & s' & e' & Hrun & Hl & (Hc & _) & _ & Hf & _);
    [reflexivity | reflexivity |].
  exists g, s', e'. repeat split; [exact Hrun | exact Hl | exact Hc |].
  apply Hf. discriminate.
Defined.

(** ** The cause of an Error value *)

Lemma err_range_cons f rest :
  err_range (f :: rest) =
  match is_cause f with
  | Some c => Some c
  | None => err_range rest
  end.
Proof.
  simpl. unfold is_cause.
  repeat case_bool_decide; simpl; try tauto;
    by destruct (zapcore.Interface f).
Qed.

Lemma err_range_skip pre : forall rest,
  Forall (fun g => is_cause g = None) pre ->
  err_range (pre ++ rest) = err_range rest.
Proof.
  induction pre as [|g pre IH]; intros rest H; [done|].
  inversion H as [|? ? Hg Hpre]; subst.
  rewrite <- app_comm_cons, err_range_cons, Hg. by apply IH.
Qed.

Lemma err_range_found fs c :
  err_range fs = Some c ->
  exists pre f post,
    fs = pre ++ f :: post
    /\ Forall (fun g => is_cause g = None) pre /\ is_cause f = Some c.
Proof.
  induction fs as [|g fs IH]; [done|].
  rewrite err_range_cons. destruct (is_cause g) as [c'|] eqn:Hg.
  - intros [= ->]. by exists [], g, fs.
  - intros H. destruct (IH H) as (pre & f & post & -> & Hpre & Hf).
    exists (g :: pre), f, post. split; [done|]. split; [by constructor|done].
Qed.

Lemma err_range_none fs :
  err_range fs = None <-> Forall (fun g => is_cause g = None) fs.
Proof.
  induction fs as [|g fs IH]; [done|].
  rewrite err_range_cons. destruct (is_cause g) as [c'|] eqn:Hg.
  - split; [done|]. intros H. inversion H; congruence.
  - rewrite IH. split; [by constructor|]. intros H. by inversion H.
Qed.

Lemma Is_self c : errors.Comparable c = true -> errors.Is c c = true.
Proof.
  intros H. unfold errors.Is; destruct c; fold errors.Is;
    rewrite H, bool_decide_eq_true_2 by done; reflexivity.
Qed.

(** C6, as the claim states it, fails: for the Error value of the test
    [TestErr], [err] returns the [randomError] of its error field and
    [errors.Is] of that result with [randomError] holds, but [errors.Is] of
    the Error value itself with [randomError] does not: [*Error] has no
    [Unwrap] method. *)
Lemma cause_comparison_counterexample :
  exists l s e,
    Internal Background "some error"
      [zap.String "a_field" "test"; zap.Int "another_field" 123;
       zap.Error (Some randomError)] init = Ok (Some l) s
    /\ heap s !! l = Some e
    /\ err e = Some randomError
    /\ errors.Is randomError randomError = true
    /\ errors.Is (ErrorPtr (Some l)) randomError = false.
Proof.
  do 3 eexists. split; [apply New_spec|].
  split; [apply lookup_insert_eq|]. by repeat split.
Qed.

(** C6, amended. [err] scans the fields in order and returns the error of
    the first field that has the key [error], the type tag of an error and
    an error in its interface value, and nothing when there is no such
    field; so for a value whose first such field is [zap.Error(c)] it
    returns [c] itself, and [errors.Is] of that result with [c] holds when
    the dynamic type of [c] is comparable. [errors.Is] of the Error value
    itself holds for no target but that same pointer. *)
Theorem cause_is_first_error_field e :
  (forall c,
     err e = Some c <->
     exists pre f post,
       fields e = pre ++ f :: post
       /\ Forall (fun g => is_cause g = None) pre /\ is_cause f = Some c)
  /\ (err e = None <-> Forall (fun g => is_cause g = None) (fields e))
  /\ (forall c pre post,
        fields e = pre ++ zap.Error (Some c) :: post ->
        Forall (fun g => is_cause g = None) pre ->
        err e = Some c
        /\ (errors.Comparable c = true -> errors.Is c c = true))
  /\ (forall p c, errors.Is (ErrorPtr p) c = true <-> c = ErrorPtr p).
Proof.
  unfold err. split; [|split; [|split]].
  - intros c. split; [apply err_range_found|].
    intros (pre & f & post & -> & Hpre & Hf).
    by rewrite err_range_skip, err_range_cons, Hf.
  - apply err_range_none.
  - intros c pre post -> Hpre. split; [|apply Is_self].
    by rewrite err_range_skip, err_range_cons.
  - intros p c. simpl. rewrite orb_false_r. split.
    + intros H. apply andb_true_iff in H as [_ H].
      by apply bool_decide_eq_true in H.
    + intros ->. simpl. by rewrite bool_decide_eq_true_2.
Qed.

Lemma cause_is_first_error_field_witness :
  let e := mkError codes.Internal "some error" [] unsetLevel ""
             [zap.String "a_field" "test"; zap.Int "another_field" 123;
              zap.Error (Some randomError)] "" in
  err e = Some randomError /\ errors.Is randomError randomError = true.
Proof.
  intros e.
  destruct (cause_is_first_error_field e) as (_ & _ & Hfirst & _).
  destruct (Hfirst randomError
              [zap.String "a_field" "test"; zap.Int "another_field" 123] [])
    as [Herr His]; [reflexivity | by repeat constructor |].
  split; [exact Herr | apply His; reflexivity].
Defined.

(** ** The text of an Error value *)




(** More fuel does not change a text already obtained. *)
Lemma Error_Error_more_fuel h n : forall p v,
  Error_Error n h p = Some v -> Error_Error (S n) h p = Some v.
Proof.
  induction n as [|n IH]; intros p v; [done|].
  intros H. simpl in H. change (Error_Error (S (S n)) h p) with
    (match p with
     | None => Some ""
     | Some l =>
         match h !! l with
         | None => None
         | Some e =>
             match err e with
             | None => Some ("[" +:+ strconv.Quote (code e) +:+ "] " +:+ msg e)
             | Some c =>
                 match call_Error (Error_Error (S n) h) c with
                 | None => None
                 | Some v =>
                     Some ("[" +:+ strconv.Quote (code e) +:+ "] " +:+ msg e
                           +:+ ": " +:+ v)
                 end
             end
         end
     end).
  destruct p as [l|]; [|done].
  destruct (h !! l) as [e|]; [|done].
  destruct (err e) as [c|]; [|done].
  destruct c as [d|d inner|q]; simpl in *; try done.
  destruct (Error_Error n h q) as [w|] eqn:Hq; [|done].
  by rewrite (IH q w Hq).
Qed.




(** ** Recovery from a panic *)



(** * Further properties *)

(** ** The tables *)

Lemma defaultLevel_entries c lvl :
  defaultLevelForCode !! c = Some lvl ->
  c ∈ codes.all /\ (lvl = warnLevel \/ lvl = errorLevel).
Proof.
  intros H. apply elem_of_list_to_map_2 in H.
  repeat (apply elem_of_cons in H as [H|H];
          [injection H as -> ->; split;
           [unfold codes.all; set_solver | tauto]|]).
  by apply elem_of_nil in H.
Qed.

Lemma defaultMessage_entries c m :
  defaultMessageForCode !! c = Some m -> c ∈ codes.all /\ m ≠ "".
Proof.
  intros H. apply elem_of_list_to_map_2 in H.
  repeat (apply elem_of_cons in H as [H|H];
          [injection H as -> ->; split;
           [unfold codes.all; set_solver | discriminate]|]).
  by apply elem_of_nil in H.
Qed.

Lemma tables_defined c :
  c ∈ codes.all ->
  is_Some (defaultLevelForCode !! c) /\ is_Some (defaultMessageForCode !! c).
Proof.
  unfold codes.all. intros H.
  repeat (apply elem_of_cons in H as [->|H]; [split; by eexists|]).
  by apply elem_of_nil in H.
Qed.

(** X1. The two tables have exactly the nine codes of package codes as
    keys, the nine codes are pairwise different, every default severity is
    warn or error, and no default message is empty. *)
Theorem tables_cover_codes :
  NoDup codes.all
  /\ length codes.all = 9%nat
  /\ (forall c, is_Some (defaultLevelForCode !! c) <-> c ∈ codes.all)
  /\ (forall c, is_Some (defaultMessageForCode !! c) <-> c ∈ codes.all)
  /\ (forall c lvl, defaultLevelForCode !! c = Some lvl ->
        lvl = warnLevel \/ lvl = errorLevel)
  /\ (forall c m, defaultMessageForCode !! c = Some m -> m ≠ "").
Proof.
  split; [|split; [reflexivity|split; [|split; [|split]]]].
  - unfold codes.all.
    repeat (apply NoDup_cons; split;
            [intros H;
             repeat (apply elem_of_cons in H as [H|H]; [discriminate|]);
             by apply elem_of_nil in H|]).
    apply NoDup_nil_2.
  - intros c. split; [|apply tables_defined].
    intros [lvl H]. by apply defaultLevel_entries in H as [? _].
  - intros c. split; [|apply tables_defined].
    intros [m H]. by apply defaultMessage_entries in H as [? _].
  - intros c lvl H. by apply defaultLevel_entries in H as [_ ?].
  - intros c m H. by apply defaultMessage_entries in H as [_ ?].
Qed.

Lemma tables_cover_codes_witness :
  ("teapot" ∉ codes.all) /\ (codes.NotFound ∈ codes.all).
Proof.
  destruct tables_cover_codes as (_ & _ & Hl & _).
  split.
  - intros H. apply Hl in H as [lvl H]. discriminate.
  - apply Hl. by eexists.
Defined.

(** ** Severity and message of values as the package builds them *)

Lemma logLevel_in_range e :
  level_known (level e) -> 1 <= Error_logLevel e <= 5.
Proof.
  intros [H0 H5]. destruct (decide (level e = unsetLevel)) as [H|H].
  - rewrite logLevel_default by done.
    destruct (defaultLevelForCode !! code e) as [lvl|] eqn:Hc; simpl.
    + apply defaultLevel_entries in Hc as [_ [-> | ->]];
        unfold warnLevel, errorLevel; lia.
    + unfold errorLevel. lia.
  - rewrite logLevel_override by done. unfold unsetLevel in H. lia.
Qed.

(** X2. The resolved severity of an Error value is never unset; without an
    override it is warn or error, so the entry is written with the Warn or
    the Error method; and when the override is one of the six constants the
    resolved severity is one of the five named levels, so [logError] does
    not reach the default case of its switch. *)
Theorem resolved_severity_known e :
  Error_logLevel e ≠ unsetLevel
  /\ (level e = unsetLevel ->
      (Error_logLevel e = warnLevel
       /\ sink_method (Error_logLevel e) = zapcore.WarnLevel)
      \/ (Error_logLevel e = errorLevel
          /\ sink_method (Error_logLevel e) = zapcore.ErrorLevel))
  /\ (level_known (level e) -> 1 <= Error_logLevel e <= 5).
Proof.
  assert (Hdef : level e = unsetLevel ->
                 Error_logLevel e = warnLevel \/ Error_logLevel e = errorLevel).
  { intros H. rewrite logLevel_default by done.
    destruct (defaultLevelForCode !! code e) as [lvl|] eqn:Hc; simpl.
    - by apply defaultLevel_entries in Hc as [_ ?].
    - by right. }
  split; [|split].
  - destruct (decide (level e = unsetLevel)) as [H|H].
    + destruct (Hdef H) as [-> | ->]; discriminate.
    + by rewrite logLevel_override.
  - intros H. destruct (Hdef H) as [-> | ->]; [left|right]; done.
  - intros [H0 H5]. destruct (decide (level e = unsetLevel)) as [H|H].
    + destruct (Hdef H) as [-> | ->]; unfold warnLevel, errorLevel; lia.
    + rewrite logLevel_override by done. unfold unsetLevel in H. lia.
Qed.

Lemma resolved_severity_known_witness :
  let e := mkError codes.Unauthenticated "no token" [] unsetLevel "" [] "" in
  sink_method (Error_logLevel e) = zapcore.WarnLevel
  /\ 1 <= Error_logLevel (set_level panicLevel e) <= 5.
Proof.
  intros e. split.
  - destruct (resolved_severity_known e) as (_ & [[_ H]|[H _]] & _);
      [reflexivity | exact H | discriminate H].
  - destruct (resolved_severity_known (set_level panicLevel e)) as (_ & _ & H).
    apply H. unfold level_known. simpl. unfold panicLevel. lia.
Defined.

Lemma written_keeps d e :
  code (written d e) = code e /\ msg (written d e) = msg e
  /\ path (written d e) = path e /\ fields (written d e) = fields e
  /\ (level_known (level e) -> level_known (level (written d e))).
Proof. by destruct d. Qed.

Lemma written_all_keeps ds : forall e,
  let e' := foldl (fun e d => written d e) e ds in
  code e' = code e /\ msg e' = msg e /\ path e' = path e
  /\ fields e' = fields e
  /\ (level_known (level e) -> level_known (level e')).
Proof.
  induction ds as [|d ds IH]; intros e; simpl; [done|].
  destruct (IH (written d e)) as (Hc & Hm & Hp & Hf & Hl).
  destruct (written_keeps d e) as (Hc' & Hm' & Hp' & Hf' & Hd).
  simpl in *. split; [congruence|]. split; [congruence|].
  split; [congruence|]. split; [congruence|]. intros H. by apply Hl, Hd.
Qed.

(** X3. A value made by [New] and then decorated by any sequence of the
    seven decoration methods is a freshly allocated value that still has
    the code, the internal message, the path of the context and the fields
    it was constructed with, and a severity override that is one of the six
    constants; nothing is logged and no value allocated before is
    changed. *)
Theorem construction_survives_decoration ctx c m fs ds s :
  exists l s' e,
    (p <- New ctx c m fs ;; decorate_all p ds) s = Ok (Some l) s'
    /\ heap s !! l = None
    /\ heap s' !! l = Some e
    /\ (code e = c /\ msg e = m /\ path e = graphql.GetPath ctx
        /\ fields e = fs)
    /\ level_known (level e)
    /\ 1 <= Error_logLevel e <= 5
    /\ logs s' = logs s
    /\ (forall l' e', heap s !! l' = Some e' -> heap s' !! l' = Some e').
Proof.
  set (e0 := mkError c m (graphql.GetPath ctx) unsetLevel "" fs "").
  destruct (written_all_keeps ds e0) as (Hc & Hm & Hp & Hf & Hl).
  assert (Hk : level_known (level (foldl (fun e d => written d e) e0 ds))).
  { apply Hl. unfold level_known. simpl. unfold unsetLevel. lia. }
  do 3 eexists. split; [|split; [|split; [|split; [|split; [|split; [|split]]]]]].
  - unfold bind. rewrite New_spec.
    rewrite (decorate_all_spec ds _ e0) by apply lookup_insert_eq.
    reflexivity.
  - apply fresh_unallocated.
  - cbn [heap]. rewrite insert_insert_eq. apply lookup_insert_eq.
  - done.
  - done.
  - by apply logLevel_in_range.
  - reflexivity.
  - intros l' e' H. cbn [heap]. rewrite insert_insert_eq.
    by rewrite lookup_alloc_old, H.
Qed.

Lemma construction_survives_decoration_witness :
  exists l s' e,
    (p <- New Background codes.NotFound "no such user" [zap.String "id" "7"] ;;
     decorate_all p [DAtError; DWithMessage "who?"; DAtInfo]) init =
      Ok (Some l) s'
    /\ heap s' !! l = Some e
    /\ code e = codes.NotFound /\ fields e = [zap.String "id" "7"].
Proof.
  destruct (construction_survives_decoration Background codes.NotFound
              "no such user" [zap.String "id" "7"]
              [DAtError; DWithMessage "who?"; DAtInfo] init)
    as (l & s' & e & Hrun & _ & Hl & (Hc & _ & _ & Hf) & _).
  by exists l, s', e.
Defined.

(** X4. The empty string is no override: the fragment of a value after
    [WithMessage] carries the given message, but the table's default for the
    code when the given message is empty; its extensions after
    [WithErrorID] hold [error_reason] with the given identifier, but the code
    alone when the given identifier is empty. A severity override cannot be
    taken back: after any of the five severity decorations the resolved
    severity is the override, which is not unset. *)
Theorem empty_override_is_no_override l e s :
  heap s !! l = Some e ->
  (forall m, exists g s',
     (p <- WithMessage (Some l) m ;; toGQLError p) s = Ok (Some g) s'
     /\ gqlerror.Message g =
        (if bool_decide (m = "")
         then default "" (defaultMessageForCode !! code e) else m))
  /\ (forall errID, exists g s',
        (p <- WithErrorID (Some l) errID ;; toGQLError p) s = Ok (Some g) s'
        /\ gqlerror.Extensions g =
           (if bool_decide (errID = "")
            then {[ "code" := anyString (code e) ]}
            else <[ "error_reason" := anyString errID ]>
                   {[ "code" := anyString (code e) ]}))
  /\ (forall d, override_of d = OLevel ->
        exists e' s',
          (p <- decorate (Some l) d ;; deref p) s = Ok e' s'
          /\ level e' ≠ unsetLevel
          /\ Error_logLevel e' = level e').
Proof.
  intros Hl. split; [|split].
  - intros m. do 2 eexists. split.
    + unfold bind.
      change (WithMessage (Some l) m) with (decorate (Some l) (DWithMessage m)).
      rewrite (decorate_spec l e (DWithMessage m)) by done.
      rewrite (toGQLError_allocated l (set_clientMsg m e))
        by apply lookup_insert_eq.
      reflexivity.
    + cbn [gqlerror.Message]. unfold clientMessage. cbn [clientMsg set_clientMsg].
      repeat case_bool_decide; done.
  - intros errID. do 2 eexists. split.
    + unfold bind.
      change (WithErrorID (Some l) errID)
        with (decorate (Some l) (DWithErrorID errID)).
      rewrite (decorate_spec l e (DWithErrorID errID)) by done.
      rewrite (toGQLError_allocated l (set_errorID errID e))
        by apply lookup_insert_eq.
      reflexivity.
    + cbn [gqlerror.Extensions]. unfold extensions.
      cbn [errorID set_errorID code].
      repeat case_bool_decide; done.
  - intros d Hd. do 2 eexists. split.
    + unfold bind. rewrite (decorate_spec l e d) by done.
      apply deref_allocated. apply lookup_insert_eq.
    + assert (H : level (written d e) ≠ unsetLevel) by by destruct d.
      split; [done|]. by apply logLevel_override.
Qed.

Lemma empty_override_is_no_override_witness :
  let e := mkError codes.NotFound "no such user" [] unsetLevel "gone" [] "" in
  exists g s',
    (p <- WithMessage (Some 1%positive) "" ;; toGQLError p)
      (mkState {[1%positive := e]} []) = Ok (Some g) s'
    /\ gqlerror.Message g = "not found".
Proof.
  intros e.
  destruct (empty_override_is_no_override 1%positive e
              (mkState {[1%positive := e]} [])) as (Hm & _); [reflexivity|].
  exact (Hm "").
Defined.

(** ** What reaches the client *)

Lemma extensions_lookup e k :
  extensions e !! k =
  if bool_decide (k = "code") then Some (anyString (code e))
  else if bool_decide (k = "error_reason") && bool_decide (errorID e ≠ "")
       then Some (anyString (errorID e))
       else None.
Proof.
  unfold extensions.
  repeat case_bool_decide; simplify_map_eq; simpl; try done.
Qed.

(** X5. The fragment the presenter returns for an Error value is a
    function of the value's code, client message override, error identifier
    and path alone: two stores whose values at the resolved address agree on
    these four give the same fragment, whatever the internal messages,
    severities and fields are. Its extensions map [code] to the code,
    [error_reason] to the identifier when that is not empty, and have no
    other key. *)
Theorem fragment_hides_internals ctx x s1 s2 l e1 e2 :
  errors.As x = Some (Some l) ->
  heap s1 !! l = Some e1 -> heap s2 !! l = Some e2 ->
  code e1 = code e2 -> clientMsg e1 = clientMsg e2 ->
  errorID e1 = errorID e2 -> path e1 = path e2 ->
  exists g s1' s2',
    ErrorPresenter ctx (Some x) s1 = Ok (Some g) s1'
    /\ ErrorPresenter ctx (Some x) s2 = Ok (Some g) s2'
    /\ gqlerror.Path g = path e1
    /\ gqlerror.Extensions g !! "code" = Some (anyString (code e1))
    /\ gqlerror.Extensions g !! "error_reason" =
       (if bool_decide (errorID e1 = "") then None
        else Some (anyString (errorID e1)))
    /\ (forall k, k ≠ "code" -> k ≠ "error_reason" ->
          gqlerror.Extensions g !! k = None).
Proof.
  intros HAs H1 H2 Hc Hm Hi Hp.
  assert (Hfrag : fragment e2 = fragment e1).
  { unfold fragment, clientMessage, extensions. by rewrite Hc, Hm, Hi, Hp. }
  exists (fragment e1). do 2 eexists.
  split; [by apply presenter_resolved|].
  split; [rewrite <- Hfrag; by apply presenter_resolved|].
  cbn [fragment gqlerror.Path gqlerror.Extensions].
  split; [done|]. rewrite !extensions_lookup.
  split; [done|]. split.
  - repeat case_bool_decide; done.
  - intros k Hk1 Hk2. rewrite extensions_lookup.
    by rewrite !bool_decide_eq_false_2 by done.
Qed.

Lemma fragment_hides_internals_witness :
  let e1 := mkError codes.NotFound "user 7 is not in table users" []
              unsetLevel "" [zap.String "id" "7"] "no_user" in
  let e2 := mkError codes.NotFound "lookup failed" [] errorLevel "" []
              "no_user" in
  exists g s1' s2',
    ErrorPresenter Background (Some (ErrorPtr (Some 1%positive)))
      (mkState {[1%positive := e1]} []) = Ok (Some g) s1'
    /\ ErrorPresenter Background (Some (ErrorPtr (Some 1%positive)))
         (mkState {[1%positive := e2]} []) = Ok (Some g) s2'.
Proof.
  intros e1 e2.
  destruct (fragment_hides_internals Background (ErrorPtr (Some 1%positive))
              (mkState {[1%positive := e1]} [])
              (mkState {[1%positive := e2]} []) 1%positive e1 e2)
    as (g & s1' & s2' & H1 & H2 & _); try reflexivity.
  by exists g, s1', s2'.
Defined.

(** X6. For each of the nine constructors the fragment of the undecorated
    value carries the table's message for the code, which is not empty, the
    path of the context and the code as its only extension: neither the
    internal message nor a field given to the constructor is in it. *)
Theorem constructors_default_fragment :
  Forall (fun '(c, ctor) =>
            forall ctx m fs s, exists g s' dflt,
              ((p <- (ctor ctx m fs : M ptr) ;; toGQLError p) s
               : outcome (option gqlerror.Error)) = Ok (Some g) s'
              /\ defaultMessageForCode !! c = Some dflt /\ dflt ≠ ""
              /\ g = gqlerror.mkError dflt (graphql.GetPath ctx)
                       {[ "code" := anyString c ]})
         constructors.
Proof.
  unfold constructors.
  repeat first [apply List.Forall_cons | apply List.Forall_nil];
    intros ctx m fs s; do 3 eexists;
    (split; [unfold bind, Internal, InvalidArgument, NotFound, AlreadyExists,
               PermissionDenied, ResourceExhausted, FailedPrecondition,
               Unimplemented, Unauthenticated;
             rewrite New_spec;
             apply toGQLError_allocated, lookup_insert_eq|]);
    (split; [reflexivity|]); (split; [discriminate|reflexivity]).
Qed.

(** ** The error the presenter resolves *)

Lemma As_outermost x p :
  errors.As x = Some p <->
  exists pre,
    unwrap_chain x = pre ++ [ErrorPtr p]
    /\ Forall (fun y => is_ErrorPtr y = false) pre.
Proof.
  induction x as [d|d inner IH|q]; simpl.
  - split; [done|]. intros (pre & Heq & Hpre).
    destruct pre as [|y pre]; [discriminate Heq|].
    injection Heq as _ Heq. by destruct pre.
  - rewrite IH. split.
    + intros (pre & -> & Hpre). exists (Wrapped d inner :: pre).
      split; [done|]. by constructor.
    + intros (pre & Heq & Hpre).
      destruct pre as [|y pre]; [discriminate Heq|].
      injection Heq as _ Heq. exists pre. split; [done|]. by inversion Hpre.
  - split.
    + intros [= ->]. by exists [].
    + intros (pre & Heq & Hpre). destruct pre as [|y pre].
      * by injection Heq as ->.
      * injection Heq as _ Heq. by destruct pre.
Qed.

(** X7. [errors.As] stores the outermost [*Error] of the Unwrap chain:
    the chain is then errors of other types followed by that pointer, where
    it ends. The presenter sees nothing of an input but this pointer: two
    inputs that resolve to the same pointer, such as an Error value and the
    same value wrapped by [fmt.Errorf] with [%w], give the same result, log
    and store. *)
Theorem presenter_sees_outermost ctx x y p s :
  errors.As x = Some p -> errors.As y = Some p ->
  ErrorPresenter ctx (Some x) s = ErrorPresenter ctx (Some y) s
  /\ (forall d, ErrorPresenter ctx (Some (Wrapped d x)) s =
                ErrorPresenter ctx (Some x) s)
  /\ exists pre,
       unwrap_chain x = pre ++ [ErrorPtr p]
       /\ Forall (fun y => is_ErrorPtr y = false) pre.
Proof.
  intros Hx Hy. split; [|split].
  - unfold ErrorPresenter. by rewrite Hx, Hy.
  - intros d. unfold ErrorPresenter. simpl. by rewrite Hx.
  - by apply As_outermost.
Qed.

Lemma presenter_sees_outermost_witness :
  let wrapper := mkDyn "*fmt.wrapError" 1 "resolving user: not found" true in
  let s := mkState {[1%positive := zeroError]} [] in
  ErrorPresenter Background
    (Some (Wrapped wrapper (ErrorPtr (Some 1%positive)))) s =
  ErrorPresenter Background (Some (ErrorPtr (Some 1%positive))) s.
Proof.
  intros wrapper s.
  apply (presenter_sees_outermost Background
           (Wrapped wrapper (ErrorPtr (Some 1%positive)))
           (ErrorPtr (Some 1%positive)) (Some 1%positive) s);
    reflexivity.
Defined.



(** ** Which fields are causes *)

(** X9. Of the fields the zap constructors make, [err] takes as cause only
    an error field under the key [error]: [zap.Error] of a non-nil error,
    [zap.NamedError] and [zap.Any] of an error when the key is [error]. It
    passes over string, integer and reflected fields whatever their key,
    over [zap.Error] of a nil error, and over error fields under any other
    key. *)
Theorem err_takes_error_key_only rest :
  (forall c, err_range (zap.Error (Some c) :: rest) = Some c)
  /\ err_range (zap.Error None :: rest) = err_range rest
  /\ (forall k c,
        err_range (zap.NamedError k (Some c) :: rest) =
        if bool_decide (k = "error") then Some c else err_range rest)
  /\ (forall k v,
        err_range (zap.Any k v :: rest) =
        match v with
        | anyError c =>
            if bool_decide (k = "error") then Some c else err_range rest
        | _ => err_range rest
        end)
  /\ (forall k v, err_range (zap.String k v :: rest) = err_range rest)
  /\ (forall k n, err_range (zap.Int k n :: rest) = err_range rest)
  /\ (forall k v, err_range (zap.Reflect k v :: rest) = err_range rest).
Proof.
  assert (Hnamed : forall k c,
            err_range (zap.NamedError k (Some c) :: rest) =
            if bool_decide (k = "error") then Some c else err_range rest).
  { intros k c. rewrite err_range_cons. unfold is_cause. simpl.
    by case_bool_decide. }
  split; [intros c; apply (Hnamed "error")|].
  split; [reflexivity|]. split; [exact Hnamed|].
  split; [|split; [|split]].
  - intros k [|str|n|c|ty i]; try apply Hnamed;
      rewrite err_range_cons; unfold is_cause; simpl;
      by rewrite ?andb_false_r.
  - intros k v. rewrite err_range_cons. unfold is_cause. simpl.
    by rewrite andb_false_r.
  - intros k n. rewrite err_range_cons. unfold is_cause. simpl.
    by rewrite andb_false_r.
  - intros k v. rewrite err_range_cons. unfold is_cause. simpl.
    by rewrite andb_false_r.
Qed.

(** ** Presenting more than once, and after a recovery *)

Lemma presenter_resolved_after_alloc ctx x s l e :
  errors.As x = Some (Some l) ->
  <[fresh (dom (heap s)) := zeroError]> (heap s) !! l = Some e ->
  ErrorPresenter ctx (Some x) s =
  Ok (Some (fragment e))
     (mkState (after_logError l e (<[fresh (dom (heap s)) := zeroError]> (heap s)))
        (logs s ++ [zap.mkEntry (sink_method (Error_logLevel e)) (msg e)
                      (logged_fields e)])).
Proof.
  intros HAs Hl. unfold ErrorPresenter. rewrite HAs.
  unfold bind at 1. unfold alloc.
  unfold bind. rewrite (logError_spec l e) by done. simpl.
  unfold bind.
  rewrite (deref_allocated l (set_fields (logged_fields e) e))
    by (by apply after_logError_same).
  reflexivity.
Qed.

(** X10. Presenting the same Error value twice writes two entries with the
    same method and message and returns the same fragment twice. When the
    path prints as the empty string the two entries are equal; otherwise the
    first entry has the field [gql_path] once and the second has it twice,
    in front of the value's fields. *)
Theorem presenting_twice ctx x s l e :
  errors.As x = Some (Some l) -> heap s !! l = Some e ->
  exists s',
    (g1 <- ErrorPresenter ctx (Some x) ;;
     g2 <- ErrorPresenter ctx (Some x) ;; ret (g1, g2)) s =
      Ok (Some (fragment e), Some (fragment e)) s'
    /\ logs s' =
       logs s ++
       [zap.mkEntry (sink_method (Error_logLevel e)) (msg e)
          (if bool_decide (ast.String (path e) = "") then fields e
           else gql_path_field (path e) :: fields e);
        zap.mkEntry (sink_method (Error_logLevel e)) (msg e)
          (if bool_decide (ast.String (path e) = "") then fields e
           else gql_path_field (path e) :: gql_path_field (path e)
                :: fields e)].
Proof.
  intros HAs Hl. eexists. split.
  - unfold bind at 1. rewrite (presenter_resolved ctx x s l e) by done.
    unfold bind at 1.
    rewrite (presenter_resolved ctx x _ l (set_fields (logged_fields e) e))
      by (try done; cbn [heap]; apply after_logError_same;
          by rewrite lookup_alloc_old, Hl).
    reflexivity.
  - cbn [logs]. rewrite <- app_assoc. simpl. unfold logged_fields.
    cbn [path set_fields fields].
    by case_bool_decide.
Qed.

Lemma presenting_twice_witness :
  let e := mkError codes.NotFound "no such user" [ast.PathName "user"]
             unsetLevel "" [zap.String "id" "7"] "" in
  exists s',
    (g1 <- ErrorPresenter Background (Some (ErrorPtr (Some 1%positive))) ;;
     g2 <- ErrorPresenter Background (Some (ErrorPtr (Some 1%positive))) ;;
     ret (g1, g2)) (mkState {[1%positive := e]} []) =
      Ok (Some (fragment e), Some (fragment e)) s'
    /\ logs s' =
       [zap.mkEntry zapcore.WarnLevel "no such user"
          [zap.String "gql_path" "user"; zap.String "id" "7"];
        zap.mkEntry zapcore.WarnLevel "no such user"
          [zap.String "gql_path" "user"; zap.String "gql_path" "user";
           zap.String "id" "7"]].
Proof.
  intros e.
  apply (presenting_twice Background (ErrorPtr (Some 1%positive))
           (mkState {[1%positive := e]} []) 1%positive e);
    reflexivity.
Defined.

Lemma RecoverFunc_run stack ctx v s :
  RecoverFunc stack ctx v s =
  Ok (ErrorPtr (Some (fresh (dom (heap s)))))
     (mkState
        (<[fresh (dom (heap s)) :=
           mkError codes.Internal stack (graphql.GetPath ctx) panicLevel ""
             [zap.Any "recover" v] ""]> (heap s))
        (logs s)).
Proof.
  unfold RecoverFunc, bind, Internal. rewrite New_spec.
  unfold AtPanic, bind.
  rewrite (assign_allocated _ _ _ _ (lookup_insert_eq _ _ _)).
  cbn [heap logs]. by rewrite insert_insert_eq.
Qed.

(** X11. Presenting what [RecoverFunc] returns writes one entry with the
    DPanic method, with the stack text as its message and the field [zap.Any]
    makes of [recover] and the recovered value, after the field [gql_path]
    when the path of the recovering context prints as a non-empty string;
    the fragment is the default one of the code internal with that path, so
    neither the stack text nor the recovered value reaches the client. *)
Theorem recover_then_present stack ctx ctx' v s :
  exists s',
    (x <- RecoverFunc stack ctx v ;; ErrorPresenter ctx' (Some x)) s =
      Ok (Some (gqlerror.mkError "internal error" (graphql.GetPath ctx)
                  {[ "code" := anyString "internal" ]})) s'
    /\ logs s' =
       logs s ++
       [zap.mkEntry zapcore.DPanicLevel stack
          (if bool_decide (ast.String (graphql.GetPath ctx) = "")
           then [zap.Any "recover" v]
           else [gql_path_field (graphql.GetPath ctx); zap.Any "recover" v])].
Proof.
  eexists. split.
  - unfold bind. rewrite RecoverFunc_run.
    rewrite (presenter_resolved ctx' (ErrorPtr (Some (fresh (dom (heap s)))))
               _ (fresh (dom (heap s))) _ eq_refl (lookup_insert_eq _ _ _)).
    reflexivity.
  - cbn [logs]. unfold logged_fields. cbn [path fields].
    by case_bool_decide.
Qed.

(** ** The two revisions of logError *)

Lemma rev1_logError_spec l e s :
  heap s !! l = Some e ->
  rev1.logError (Some l) s =
  Ok tt (mkState (heap s)
           (logs s ++
            [zap.mkEntry
               (if bool_decide (Error_logLevel e = panicLevel)
                then zapcore.ErrorLevel else sink_method (Error_logLevel e))
               (msg e) (fields e)])).
Proof.
  intros H. unfold rev1.logError, bind. rewrite (deref_allocated l e) by done.
  destruct (Error_logLevel e) as [|p|p]; [reflexivity| |reflexivity].
  destruct p as [[[q|q|]|[q|q|]|]|[[q|q|]|[q|q|]|]|]; reflexivity.
Qed.

Lemma rev1_logError_agrees p s :
  (forall l e, p = Some l -> heap s !! l = Some e ->
     ast.String (path e) = "" /\ Error_logLevel e ≠ panicLevel) ->
  rev1.logError p s = logError p s.
Proof.
  intros H. destruct p as [l|]; [|reflexivity].
  destruct (heap s !! l) as [e|] eqn:Hl.
  - destruct (H l e eq_refl Hl) as [Hp Hlvl].
    rewrite (rev1_logError_spec l e), (logError_spec l e) by done.
    unfold after_logError, logged_fields.
    rewrite (bool_decide_eq_false_2 (Error_logLevel e = panicLevel)) by done.
    by rewrite !(bool_decide_eq_true_2 (ast.String (path e) = "")) by done.
  - unfold rev1.logError, logError, bind, deref. by rewrite Hl.
Qed.

(** X12. The [logError] of the earlier revision writes one entry with the
    value's message and fields as they are and leaves the store as it was;
    its switch has no case for panic, so it writes with the Error method
    where the later revision writes with DPanic. For an input whose
    resolved value has a path that prints as the empty string and a resolved
    severity other than panic, the presenters of the two revisions give the
    same result, log and store. *)
Theorem revisions_agree ctx x s :
  (forall l e, errors.As x = Some (Some l) -> heap s !! l = Some e ->
     ast.String (path e) = "" /\ Error_logLevel e ≠ panicLevel) ->
  rev1.ErrorPresenter ctx (Some x) s = ErrorPresenter ctx (Some x) s
  /\ (forall l e, heap s !! l = Some e ->
        exists s',
          rev1.logError (Some l) s = Ok tt s'
          /\ heap s' = heap s
          /\ logs s' =
             logs s ++
             [zap.mkEntry
                (if bool_decide (Error_logLevel e = panicLevel)
                 then zapcore.ErrorLevel
                 else sink_method (Error_logLevel e))
                (msg e) (fields e)]).
Proof.
  intros H. split.
  - unfold rev1.ErrorPresenter, ErrorPresenter.
    destruct (errors.As x) as [p|] eqn:HAs; [|reflexivity].
    unfold bind at 1 3. unfold alloc. unfold bind at 1 2.
    rewrite rev1_logError_agrees; [reflexivity|].
    intros l e -> Hl. cbn [heap] in Hl. rewrite lookup_alloc_old in Hl.
    destruct (heap s !! l) as [e0|] eqn:Hl0.
    + injection Hl as <-. by apply (H l).
    + case_bool_decide; [|discriminate]. injection Hl as <-. by split.
  - intros l e Hl. eexists. split; [by apply rev1_logError_spec|done].
Qed.

Lemma revisions_agree_witness :
  let e := mkError codes.NotFound "no such user" [] unsetLevel ""
             [zap.String "id" "7"] "" in
  let s := mkState {[1%positive := e]} [] in
  rev1.ErrorPresenter Background (Some (ErrorPtr (Some 1%positive))) s =
  ErrorPresenter Background (Some (ErrorPtr (Some 1%positive))) s.
Proof.
  intros e s.
  apply (revisions_agree Background (ErrorPtr (Some 1%positive)) s).
  intros l e' [= <-] [= <-]. split; [reflexivity|discriminate].
Defined.

(** ** The chain of causes ends *)

Lemma cause_loc_gql_path pth fs :
  cause_loc (gql_path_field pth :: fs) = cause_loc fs.
Proof. unfold cause_loc. by rewrite err_range_cons. Qed.

Lemma cause_loc_recover v : cause_loc [zap.Any "recover" v] = None.
Proof. by destruct v. Qed.

Lemma cause_loc_foreign x : errors.As x = None -> cause_loc [zap.Error (Some x)] = None.
Proof. by destruct x. Qed.

Lemma ranked_update r (h : gmap loc Error) l e e' :
  ranked r h -> h !! l = Some e ->
  cause_loc (fields e') = cause_loc (fields e) ->
  ranked r (<[l := e']> h).
Proof.
  intros Hr Hl Hc l0 e0 q H0 Hq.
  assert (Hin : is_Some (h !! q) /\ (r q < r l0)%nat).
  { destruct (decide (l0 = l)) as [->|Hne].
    - rewrite lookup_insert_eq in H0. injection H0 as <-.
      rewrite Hc in Hq. by apply (Hr l e).
    - rewrite lookup_insert_ne in H0 by done. by apply (Hr l0 e0). }
  destruct Hin as [[eq Hq'] Hlt]. split; [|done].
  destruct (decide (l = q)) as [->|Hne].
  - rewrite lookup_insert_eq. by eexists.
  - rewrite lookup_insert_ne by done. by eexists.
Qed.

Lemma ranked_alloc r (h : gmap loc Error) l e :
  ranked r h -> h !! l = None ->
  (forall q, cause_loc (fields e) = Some q -> is_Some (h !! q)) ->
  exists r', ranked r' (<[l := e]> h).
Proof.
  intros Hr Hl Hclosed.
  exists (fun x => if decide (x = l)
                   then S (from_option r 0%nat (cause_loc (fields e)))
                   else r x).
  intros l0 e0 q H0 Hq.
  assert (Hq' : is_Some (h !! q) /\
                (r q < (if decide (l0 = l)
                        then S (from_option r 0%nat (cause_loc (fields e)))
                        else r l0))%nat).
  { destruct (decide (l0 = l)) as [->|Hne].
    - rewrite lookup_insert_eq in H0. injection H0 as <-.
      split; [by apply Hclosed|]. rewrite Hq. simpl. lia.
    - rewrite lookup_insert_ne in H0 by done. by apply (Hr l0 e0). }
  destruct Hq' as [[eq Heq] Hlt].
  assert (Hne : q ≠ l) by (intros ->; congruence).
  split.
  - rewrite lookup_insert_ne by done. by eexists.
  - by rewrite (decide_False (P := q = l)).
Qed.

Lemma acyclic_alloc (h : gmap loc Error) e :
  acyclic h ->
  (forall q, cause_loc (fields e) = Some q -> is_Some (h !! q)) ->
  acyclic (<[fresh (dom h) := e]> h).
Proof.
  intros [r Hr] Hclosed.
  by apply (ranked_alloc r h); [|apply fresh_unallocated|].
Qed.

Lemma acyclic_update (h : gmap loc Error) l e e' :
  acyclic h -> h !! l = Some e ->
  cause_loc (fields e') = cause_loc (fields e) ->
  acyclic (<[l := e']> h).
Proof. intros [r Hr] Hl Hc. exists r. by apply (ranked_update r h l e). Qed.

Lemma acyclic_after_logError (h : gmap loc Error) l e :
  acyclic h -> h !! l = Some e -> acyclic (after_logError l e h).
Proof.
  intros Ha Hl. unfold after_logError. case_bool_decide as Hp; [done|].
  apply (acyclic_update h l e); [done..|].
  unfold logged_fields. rewrite bool_decide_eq_false_2 by done.
  apply cause_loc_gql_path.
Qed.

Lemma Error_Error_step n h l e :
  h !! l = Some e ->
  Error_Error (S n) h (Some l) =
  match err e with
  | None => Some ("[" +:+ strconv.Quote (code e) +:+ "] " +:+ msg e)
  | Some c =>
      match call_Error (Error_Error n h) c with
      | None => None
      | Some v =>
          Some ("[" +:+ strconv.Quote (code e) +:+ "] " +:+ msg e
                +:+ ": " +:+ v)
      end
  end.
Proof. intros H. simpl. by rewrite H. Qed.

Lemma Error_terminates_ranked r h : forall n l e,
  ranked r h -> (r l <= n)%nat -> h !! l = Some e ->
  exists v, Error_Error (S (S n)) h (Some l) = Some v.
Proof.
  induction n as [|n IH]; intros l e Hr Hn Hl;
    rewrite (Error_Error_step _ h l e) by done;
    destruct (err e) as [[d|d inner|[q|]]|] eqn:He; try (by eexists).
  - destruct (Hr l e q Hl) as [_ Hlt]; [|lia].
    unfold cause_loc. unfold err in He. by rewrite He.
  - destruct (Hr l e q Hl) as [[eq Hq] Hlt].
    { unfold cause_loc. unfold err in He. by rewrite He. }
    destruct (IH q eq Hr) as [v Hv]; [lia|done|].
    cbn [call_Error]. rewrite Hv. by eexists.
Qed.

Lemma Error_Error_fuel_le h n m p v :
  (n <= m)%nat -> Error_Error n h p = Some v -> Error_Error m h p = Some v.
Proof.
  induction 1 as [|m Hle IH]; [done|].
  intros H. by apply Error_Error_more_fuel, IH.
Qed.

(** X13. In a store where the chain of causes of every value ends, the
    method [Error] returns a text for every allocated value: there is an
    amount of fuel from which on [Error_Error] gives that one text. *)
Theorem Error_text_terminates h l e :
  acyclic h -> h !! l = Some e ->
  exists n v,
    forall m, (n <= m)%nat -> Error_Error m h (Some l) = Some v.
Proof.
  intros [r Hr] Hl.
  destruct (Error_terminates_ranked r h (r l) l e Hr (le_n _) Hl) as [v Hv].
  exists (S (S (r l))), v. intros m Hm.
  by apply (Error_Error_fuel_le h (S (S (r l)))).
Qed.

Lemma Error_text_terminates_witness :
  let inner := mkError codes.NotFound "no row" [] unsetLevel "" [] "" in
  let outer := mkError codes.Internal "lookup failed" [] unsetLevel ""
                 [zap.Error (Some (ErrorPtr (Some 1%positive)))] "" in
  let h : gmap loc Error := <[2%positive := outer]> {[1%positive := inner]} in
  exists n v, forall m, (n <= m)%nat -> Error_Error m h (Some 2%positive) = Some v.
Proof.
  intros inner outer h.
  apply (Error_text_terminates h 2%positive outer); [|reflexivity].
  exists (fun x => Pos.to_nat x). intros l e q Hl Hq.
  unfold h in Hl.
  destruct (decide (l = 2%positive)) as [->|Hne].
  - rewrite lookup_insert_eq in Hl. injection Hl as <-.
    injection Hq as <-. split; [by eexists|]. simpl. lia.
  - rewrite lookup_insert_ne in Hl by done.
    destruct (decide (l = 1%positive)) as [->|Hne1].
    + rewrite lookup_singleton_eq in Hl. injection Hl as <-. discriminate Hq.
    + rewrite lookup_singleton_ne in Hl by done. discriminate Hl.
Defined.

Lemma decorate_inv p d p' s s' :
  decorate p d s = Ok p' s' ->
  exists l e,
    p = Some l /\ heap s !! l = Some e /\ p' = p
    /\ s' = mkState (<[l := written d e]> (heap s)) (logs s).
Proof.
  destruct p as [l|]; [|by destruct d].
  destruct (heap s !! l) as [e|] eqn:Hl.
  - rewrite (decorate_spec l e) by done. intros [= <- <-]. by exists l, e.
  - destruct d; simpl;
      unfold WithMessage, WithErrorID, AtDebug, AtInfo, AtWarn, AtError,
        AtPanic, bind, assign, bind, deref;
      by rewrite Hl.
Qed.

Lemma presenter_unresolved_store ctx x s :
  errors.As x = None ->
  exists g m logs',
    let h1 := <[fresh (dom (heap s)) := zeroError]> (heap s) in
    ErrorPresenter ctx (Some x) s =
    Ok g (mkState
            (<[fresh (dom h1) :=
               mkError codes.Internal m (graphql.GetPath ctx) unsetLevel ""
                 [zap.Error (Some x)] ""]> h1)
            logs').
Proof.
  intros HAs. unfold ErrorPresenter. rewrite HAs.
  unfold bind at 1. unfold alloc.
  unfold bind at 1. unfold Logger.Error, Logger.log.
  unfold bind at 1.
  destruct (Error_of_foreign x
              (mkState (<[fresh (dom (heap s)) := zeroError]> (heap s))
                 (logs s ++
                  [zap.mkEntry zapcore.ErrorLevel
                     "received error that was not of type *gqlerr.Error"
                     [zap.String "type" (Sprintf_T x); zap.Error (Some x)]])))
    as [m Hm]; [done|].
  simpl in Hm. simpl. rewrite Hm.
  unfold bind, Internal. rewrite New_spec. simpl.
  unfold bind, deref. cbn [heap]. rewrite lookup_insert_eq.
  by do 3 eexists.
Qed.

Lemma presenter_resolved_unallocated ctx x s l :
  errors.As x = Some (Some l) ->
  <[fresh (dom (heap s)) := zeroError]> (heap s) !! l = None ->
  ErrorPresenter ctx (Some x) s = Panic.
Proof.
  intros HAs Hl. unfold ErrorPresenter. rewrite HAs.
  unfold bind at 1. unfold alloc. unfold bind, logError, bind, deref.
  cbn [heap]. by rewrite Hl.
Qed.

(** X14. That the chain of causes of every value ends is kept by all the
    package does to the store: by [New], and so by the nine constructors,
    when the cause among the given fields, if it is a [*Error], is
    allocated; by each decoration; by [RecoverFunc]; and by the presenter,
    whatever the input. It holds of the empty store. *)
Theorem acyclic_kept s :
  acyclic (heap s) ->
  (forall ctx c m fs p s',
     (forall q, cause_loc fs = Some q -> is_Some (heap s !! q)) ->
     New ctx c m fs s = Ok p s' -> acyclic (heap s'))
  /\ (forall p d p' s', decorate p d s = Ok p' s' -> acyclic (heap s'))
  /\ (forall stack ctx v x s',
        RecoverFunc stack ctx v s = Ok x s' -> acyclic (heap s'))
  /\ (forall ctx x g s', ErrorPresenter ctx x s = Ok g s' -> acyclic (heap s'))
  /\ acyclic (heap init).
Proof.
  intros Ha. split; [|split; [|split; [|split]]].
  - intros ctx c m fs p s' Hclosed. rewrite New_spec. intros [= _ <-].
    by apply acyclic_alloc.
  - intros p d p' s' H.
    apply decorate_inv in H as (l & e & -> & Hl & _ & ->).
    apply (acyclic_update (heap s) l e); [done..|]. by destruct d.
  - intros stack ctx v x s'. unfold RecoverFunc, bind, Internal.
    rewrite New_spec. unfold AtPanic, bind.
    rewrite (assign_allocated _ _ _ _ (lookup_insert_eq _ _ _)).
    intros [= _ <-]. cbn [heap]. rewrite insert_insert_eq.
    apply acyclic_alloc; [done|].
    intros q Hq. change (cause_loc [zap.Any "recover" v] = Some q) in Hq.
    by rewrite cause_loc_recover in Hq.
  - intros ctx [x|] g s'; [|by intros [= _ <-]].
    assert (Ha1 : acyclic (<[fresh (dom (heap s)) := zeroError]> (heap s))).
    { apply acyclic_alloc; [done|]. intros q Hq. discriminate Hq. }
    destruct (errors.As x) as [[l|]|] eqn:HAs.
    + destruct (<[fresh (dom (heap s)) := zeroError]> (heap s) !! l)
        as [e|] eqn:Hl.
      * rewrite (presenter_resolved_after_alloc ctx x s l e) by done.
        intros [= _ <-]. by apply acyclic_after_logError.
      * by rewrite (presenter_resolved_unallocated ctx x s l).
    + unfold ErrorPresenter. by rewrite HAs.
    + destruct (presenter_unresolved_store ctx x s HAs)
        as (g' & m & logs' & Hrun).
      cbv zeta in Hrun. rewrite Hrun. intros [= _ <-].
      apply acyclic_alloc; [done|].
      intros q Hq. change (cause_loc [zap.Error (Some x)] = Some q) in Hq.
      by rewrite cause_loc_foreign in Hq.
  - exists (fun _ => 0%nat). intros l e q Hl. cbn [init heap] in Hl.
    by rewrite lookup_empty in Hl.
Qed.

Lemma acyclic_kept_witness :
  exists p s',
    New Background codes.Internal "lookup failed"
      [zap.Error (Some randomError)] init = Ok p s'
    /\ acyclic (heap s').
Proof.
  destruct (acyclic_kept init) as (Hnew & _ & _ & _ & Hinit).
  - exists (fun _ => 0%nat). intros l e q Hl. cbn [init heap] in Hl.
    by rewrite lookup_empty in Hl.
  - do 2 eexists. split; [apply New_spec|].
    eapply (Hnew Background codes.Internal "lookup failed"
              [zap.Error (Some randomError)]); [|apply New_spec].
    intros q Hq. discriminate Hq.
Defined.

(** ** A nil receiver *)

(** X15. Of the methods of [*Error], only [Error] and [toGQLError] accept a
    nil receiver: [Error] returns the empty text and [toGQLError] returns no
    fragment, both leaving store and log as they are. Every decoration
    panics on a nil receiver, and so does a chain of decorations that is
    not empty, and so does [logError]. *)
Theorem nil_receiver s :
  (forall n h, Error_Error (S n) h None = Some "")
  /\ toGQLError None s = Ok None s
  /\ (forall d, decorate None d s = Panic)
  /\ (forall d ds, decorate_all None (d :: ds) s = Panic)
  /\ logError None s = Panic.
Proof.
  split; [done|]. split; [done|].
  assert (H : forall d, decorate None d s = Panic) by (by intros []).
  split; [exact H|]. split; [|done].
  intros d ds. simpl. unfold bind. by rewrite H.
Qed.
